(** * pixz.c: the command-line front end of pixz

    A shallow embedding of [src/pixz.c]: the suffix helpers [strsuf],
    [subsuf] and [auto_output] over a small model of C character arrays,
    and [main] as a function from the results of [getopt], the remaining
    arguments and the answers of the operating system to the sequence of
    calls the process makes and the way it ends.  The first remaining
    argument is handed to [auto_output] as it lies in memory, inside the
    argument block. *)

From Stdlib Require Import ZArith List String Ascii Bool Lia QArith.
Import ListNotations.

Local Open Scope string_scope.
Local Open Scope list_scope.
Local Open Scope Z_scope.

(** ** Reads and writes that miss their block

    A call of a library function on a pointer either gives a value, or it
    reads or writes outside the block of memory the pointer points into,
    or reads a cell that was never written: then it has no result here.
    Only these accesses are checked; moving a pointer is not. *)

Inductive res (A : Type) : Type :=
| Ok (a : A)
| Undef.

Arguments Ok {A} a.
Arguments Undef {A}.

Definition rbind {A B : Type} (m : res A) (f : A -> res B) : res B :=
  match m with
  | Ok a => f a
  | Undef => Undef
  end.

Notation "x <- m ;; k" := (rbind m (fun x => k))
  (at level 61, m at next level, right associativity).

(** ** Character arrays and pointers *)

Module CStr.

(** The terminating character of a C string. *)
Definition NUL : ascii := Ascii.zero.

Definition is_nul (c : ascii) : bool := Ascii.eqb c NUL.

(** A [char *]: the array it points into and an offset from its start.
    A cell of an array holds a character, or [None] when it was allocated
    and never written.  Pointer arithmetic moves the offset and is never
    checked itself; the offset is checked against the bounds of the array
    when a library function reads or writes there. *)
Record ptr : Type := mkptr { blk : list (option ascii); ofs : Z }.

Definition padd (p : ptr) (n : Z) : ptr := mkptr (blk p) (ofs p + n).
Definition psub (p : ptr) (n : Z) : ptr := mkptr (blk p) (ofs p - n).

Definition chars (s : string) : list ascii := list_ascii_of_string s.

(** The array that holds the string [s]: its characters and the
    terminator. *)
Definition array_of (s : string) : list (option ascii) :=
  map Some (chars s) ++ [Some NUL].

(** A pointer to the first character of a string that stands alone in
    its array, as a string literal does. *)
Definition ptr_of (s : string) : ptr := mkptr (array_of s) 0.

(** [size_t] is 64 bits wide. *)
Definition size_max : Z := 2 ^ 64.
Definition wrap (z : Z) : Z := z mod size_max.

(** The cells from the pointer to the end of its array; no result when
    the pointer lies outside the array. *)
Definition cells_at (p : ptr) : res (list (option ascii)) :=
  if (ofs p <? 0) || (Z.of_nat (List.length (blk p)) <? ofs p) then Undef
  else Ok (skipn (Z.to_nat (ofs p)) (blk p)).

(** [strlen]: the number of characters before the first NUL. *)
Fixpoint strlen_cells (l : list (option ascii)) : res Z :=
  match l with
  | Some c :: r =>
      if is_nul c then Ok 0 else n <- strlen_cells r ;; Ok (n + 1)
  | _ => Undef
  end.

Definition strlen (p : ptr) : res Z :=
  l <- cells_at p ;; strlen_cells l.

(** [strcmp]: compares character by character up to the first difference
    or the common NUL. *)
Fixpoint strcmp_cells (l1 l2 : list (option ascii)) : res Z :=
  match l1, l2 with
  | Some c1 :: r1, Some c2 :: r2 =>
      if negb (Ascii.eqb c1 c2)
      then Ok (Z.of_nat (nat_of_ascii c1) - Z.of_nat (nat_of_ascii c2))
      else if is_nul c1 then Ok 0
      else strcmp_cells r1 r2
  | _, _ => Undef
  end.

Definition strcmp (p q : ptr) : res Z :=
  l1 <- cells_at p ;; l2 <- cells_at q ;; strcmp_cells l1 l2.

(** Modelled from the spec: [xmalloc] is declared in pixz.h and defined
    outside this file, and the spec has no word on it; it is taken as an
    allocation that succeeds: a fresh array of [n] unwritten cells. *)
Definition xmalloc (n : Z) : ptr := mkptr (repeat None (Z.to_nat n)) 0.

(** Overwrites the cells of [l] from index [i] on with [new]; no result
    when they do not all lie inside [l]. *)
Definition store_cells (l : list (option ascii)) (i : Z)
    (new : list (option ascii)) : res (list (option ascii)) :=
  if (i <? 0) || (Z.of_nat (List.length l) <? i + Z.of_nat (List.length new))
  then Undef
  else Ok (firstn (Z.to_nat i) l ++ new
           ++ skipn (Z.to_nat i + List.length new) l).

(** [memcpy(dst, src, n)]: the array [dst] points into, after the copy. *)
Definition memcpy (dst src : ptr) (n : Z) : res (list (option ascii)) :=
  l <- cells_at src ;;
  if (n <? 0) || (Z.of_nat (List.length l) <? n) then Undef
  else store_cells (blk dst) (ofs dst) (firstn (Z.to_nat n) l).

(** [strcpy(dst, src)]: copies the string at [src] with its terminator. *)
Definition strcpy (dst src : ptr) : res (list (option ascii)) :=
  l <- cells_at src ;;
  n <- strlen_cells l ;;
  store_cells (blk dst) (ofs dst) (firstn (Z.to_nat (n + 1)) l).

(** The string a pointer points to, as a caller reads it. *)
Fixpoint string_cells (l : list (option ascii)) : res string :=
  match l with
  | Some c :: r =>
      if is_nul c then Ok EmptyString
      else s <- string_cells r ;; Ok (String c s)
  | _ => Undef
  end.

Definition string_at (p : ptr) : res string :=
  l <- cells_at p ;; string_cells l.

End CStr.

Import CStr.

(** ** The suffix helpers *)

Inductive pixz_op_t : Type := OP_WRITE | OP_READ | OP_EXTRACT | OP_LIST.

Definition op_eqb (a b : pixz_op_t) : bool :=
  match a, b with
  | OP_WRITE, OP_WRITE | OP_READ, OP_READ
  | OP_EXTRACT, OP_EXTRACT | OP_LIST, OP_LIST => true
  | _, _ => false
  end.

(** [strsuf(big, small)]:
    [strcmp(big + bl - sl, small) == 0] with [bl], [sl] the two lengths. *)
Definition strsuf (big small : ptr) : res bool :=
  bl <- strlen big ;;
  sl <- strlen small ;;
  c <- strcmp (psub (padd big bl) sl) small ;;
  Ok (c =? 0).

(** [subsuf(in, suf1, suf2)]: [None] is the NULL result. *)
Definition subsuf (inp suf1 suf2 : ptr) : res (option ptr) :=
  b <- strsuf inp suf1 ;;
  if negb b then Ok None
  else
    li <- strlen inp ;;
    l1 <- strlen suf1 ;;
    l2 <- strlen suf2 ;;
    let r := xmalloc (wrap (li + l2 - l1 + 1)) in
    m1 <- memcpy r inp (wrap (li - l1)) ;;
    let r := mkptr m1 (ofs r) in
    m2 <- strcpy (psub (padd r li) l1) suf2 ;;
    Ok (Some (mkptr m2 (ofs r))).

(** One line [SUF(_op, _s1, _s2)] of [auto_output]: returns from the
    function when the operation matches and [subsuf] gives a string,
    and goes on to [next] otherwise. *)
Definition SUF (op : pixz_op_t) (inp : ptr) (_op : pixz_op_t)
    (_s1 _s2 : string) (next : res (option ptr)) : res (option ptr) :=
  if op_eqb op _op then
    r <- subsuf inp (ptr_of _s1) (ptr_of _s2) ;;
    match r with
    | Some p => Ok (Some p)
    | None => next
    end
  else next.

Definition auto_output (op : pixz_op_t) (inp : ptr) : res (option ptr) :=
  SUF op inp OP_READ ".tar.xz" ".tar" (
  SUF op inp OP_READ ".tpxz" ".tar" (
  SUF op inp OP_READ ".xz" "" (
  SUF op inp OP_WRITE ".tar" ".tpxz" (
  SUF op inp OP_WRITE "" ".xz" (
  Ok None))))).

(** [auto_output] on a string [name] that stands alone in its array,
    with the result read back as a string. *)
Definition auto_output_str (op : pixz_op_t) (name : string)
  : res (option string) :=
  r <- auto_output op (ptr_of name) ;;
  match r with
  | Some p => s <- string_at p ;; Ok (Some s)
  | None => Ok None
  end.

(** ** Library functions used by the option loop *)

Definition code (c : ascii) : Z := Z.of_nat (nat_of_ascii c).

(** [*p] for a pointer into a string: the first character of what is
    left, NUL at the end. *)
Definition deref (s : string) : ascii :=
  match s with
  | EmptyString => NUL
  | String c _ => c
  end.

Definition isspace (c : ascii) : bool :=
  (code c =? 32) || ((9 <=? code c) && (code c <=? 13)).

Definition isdigit (c : ascii) : bool :=
  (code "0" <=? code c) && (code c <=? code "9").

Fixpoint skip_space (s : string) : string :=
  match s with
  | String c r => if isspace c then skip_space r else s
  | EmptyString => s
  end.

(** An optional sign at the front of [s]: is it a minus, and what
    follows. *)
Definition sign_split (s : string) : bool * string :=
  match s with
  | String "-" r => (true, r)
  | String "+" r => (false, r)
  | _ => (false, s)
  end.

(** The decimal digits at the front of [s], read into [acc]; with the
    number of digits read and what follows them. *)
Fixpoint read_digits (s : string) (acc : Z) (n : nat) : Z * nat * string :=
  match s with
  | String c r =>
      if isdigit c then read_digits r (10 * acc + (code c - code "0")) (S n)
      else (acc, n, s)
  | EmptyString => (acc, n, s)
  end.

(** [long] is 64 bits wide. *)
Definition LONG_MAX : Z := 2 ^ 63 - 1.
Definition LONG_MIN : Z := - 2 ^ 63.

Definition clamp_long (v : Z) : Z :=
  if v <? LONG_MIN then LONG_MIN
  else if LONG_MAX <? v then LONG_MAX
  else v.

(** [strtol(nptr, &endptr, 10)]: the value and the string [endptr] is left
    pointing to.  White space, then an optional sign, then digits; with no
    digit nothing is converted: the value is 0 and [endptr] is [nptr]. *)
Definition strtol (nptr : string) : Z * string :=
  let s := skip_space nptr in
  let '(neg, s) := sign_split s in
  match read_digits s 0 0 with
  | (_, O, _) => (0, nptr)
  | (v, _, rest) => (clamp_long (if neg then - v else v), rest)
  end.

(** A [double]: not a number, an infinity, or a finite value. *)
Inductive double : Type :=
| D_nan
| D_inf (negative : bool)
| D_fin (q : Q).

(** [d <= 0] on doubles; a comparison with a NaN is false. *)
Definition dle0 (d : double) : bool :=
  match d with
  | D_nan => false
  | D_inf negative => negative
  | D_fin q => Qle_bool q 0
  end.

(** From liblzma's headers. *)
Definition LZMA_PRESET_DEFAULT : Z := 6.
Definition LZMA_PRESET_EXTREME : Z := 2 ^ 31.

(** ** The process and its environment *)

Inductive oflag : Type := O_CREAT | O_WRONLY.

(** What the process does that can be seen from outside, in order. *)
Inductive event : Type :=
| Ev_stderr (text : string)
| Ev_fopen (path mode : string)
| Ev_stat (path : string)
| Ev_open (path : string) (flags : list oflag) (mode : Z)
| Ev_fdopen (path mode : string)
| Ev_isatty_out
| Ev_pixz_write (tar : bool) (level : Z)
| Ev_pixz_read (tar : bool) (members : list string)
| Ev_pixz_list (tar : bool)
| Ev_unlink (path : string).

(** How the process ends: [exit(code)] or the return from [main]; a call
    of [die]; or a library call that has no result.

    Modelled from the spec: [die] is declared in pixz.h and defined outside
    this file; by the spec it is an immediate abort that prints the error
    and the reason to the diagnostic stream, with an exit code that is
    not zero and otherwise unspecified.  [Died msg] stands for that end,
    with the message [die] was given. *)
Inductive outcome : Type :=
| Exit (code : Z)
| Died (msg : string)
| Undefined.

(** What the build, the C library, the operating system and the engine
    answer.  [PACKAGE_VERSION] comes from the build; the entry points
    [pixz_write], [pixz_read] and [pixz_list] are defined outside this
    file and end the process through [die] when they fail. *)
Record world : Type := {
  PACKAGE_VERSION : string;
  (** [strtod(nptr, &endptr)] *)
  strtod : string -> double * string;
  (** does [fopen(path, mode)] give a stream *)
  fopen_ok : string -> string -> bool;
  (** the [st_mode] that [stat(path, &st)] stores, if it succeeds *)
  stat_st_mode : string -> option Z;
  (** what [st_mode] holds when [stat] stored nothing *)
  unset_st_mode : Z;
  (** does [open(path, flags, mode)] give a descriptor *)
  open_ok : string -> list oflag -> Z -> bool;
  (** does [fdopen] on the descriptor opened for [path] give a stream *)
  fdopen_ok : string -> bool;
  (** [isatty(fileno(gOutFile))], by the path opened for output
      ([None]: standard output) *)
  out_isatty : option string -> bool;
  (** [strerror(errno)] after a failed call on [path] *)
  strerror_errno : string -> string;
  (** the engine's entry points return ([None]) or [die] with a message *)
  engine : event -> option string;
  (** the character [k + 2] cells in front of the first remaining
      argument, in the memory the arguments were handed over in: a
      character of an earlier argument, or of what lies in front of the
      argument block *)
  argv_front : nat -> ascii;
  (** the file mode creation mask of the process *)
  umask : Z;
  (** the permission bits of the file that is already at [path] when
      [open] is called on it ([None]: there is none) *)
  existing_mode : string -> option Z
}.

(** A computation of [main]: the events so far, and a value to go on
    with or the end of the process. *)
Definition M (A : Type) : Type := list event * (A + outcome).

Definition ret {A : Type} (a : A) : M A := ([], inl a).

Definition bind {A B : Type} (m : M A) (f : A -> M B) : M B :=
  match m with
  | (t, inl a) => let '(t', r) := f a in (t ++ t', r)
  | (t, inr o) => (t, inr o)
  end.

Definition emit (e : event) : M unit := ([e], inl tt).
Definition halt {A : Type} (o : outcome) : M A := ([], inr o).

Definition lift {A : Type} (r : res A) : M A :=
  match r with
  | Ok a => ret a
  | Undef => halt Undefined
  end.

Declare Scope main_scope.
Delimit Scope main_scope with main.
Notation "x <-- m ; k" := (bind m (fun x => k))
  (at level 61, m at next level, right associativity) : main_scope.
Notation "m ;; k" := (bind m (fun _ => k))
  (at level 61, right associativity) : main_scope.
Notation "'when' b 'then' m" := (if b then m else ret tt)
  (at level 60, b at level 9) : main_scope.

Definition nl : string := String "010" EmptyString.

Definition die {A : Type} (msg : string) : M A := halt (Died msg).

Local Open Scope main_scope.

(** ** [usage] and [version] *)

Definition usage_lines : list string := [
"pixz: Parallel Indexing XZ compression, fully compatible with XZ";
"";
"Basic usage:";
"  pixz input output.pxz           # Compress a file in parallel";
"  pixz -d input.pxz output        # Decompress";
"";
"Tarballs:";
"  pixz input.tar output.tpxz      # Compress and index a tarball";
"  pixz -d input.tpxz output.tar   # Decompress";
"  pixz -l input.tpxz              # List tarball contents very fast";
"  pixz -x path/to/file < input.tpxz | tar x  # Extract one file very fast";
"  tar -Ipixz -cf output.tpxz dir  # Make tar use pixz automatically";
"";
"Input and output:";
"  pixz < input > output.pxz       # Same as `pixz input output.pxz`";
"  pixz -i input -o output.pxz     # Ditto";
"  pixz [-d] input                 # Automatically choose output filename";
"";
"Other flags:";
"  -0, -1 ... -9      Set compression level, from fastest to strongest";
"  -p NUM             Use a maximum of NUM CPU-intensive threads";
"  -t                 Don't assume input is in tar format";
"  -k                 Keep original input (do not remove it)";
"  -c                 ignored";
"  -V                 Print version and exit";
"  -h                 Print this help";
""
]%string.

Definition usage_text (version : string) : string :=
  (String.concat nl usage_lines ++ nl
   ++ "pixz " ++ version ++ nl
   ++ "(C) 2009-2020 Dave Vasilevsky <dave@vasilevsky.ca>" ++ nl
   ++ "https://github.com/vasi/pixz" ++ nl
   ++ "You may use this software under the FreeBSD License" ++ nl)%string.

(** [usage(msg)]; [None] is the NULL message. *)
Definition usage {A : Type} (w : world) (msg : option string) : M A :=
  match msg with
  | Some m => emit (Ev_stderr (m ++ nl ++ nl))
  | None => ret tt
  end ;;
  emit (Ev_stderr (usage_text (PACKAGE_VERSION w))) ;;
  match msg with
  | Some _ => halt (Exit 2)
  | None => halt (Exit 0)
  end.

Definition version {A : Type} (w : world) : M A :=
  emit (Ev_stderr ("pixz " ++ PACKAGE_VERSION w ++ nl)) ;;
  halt (Exit 0).

(** ** [main] *)

(** The variables the option loop sets: the locals of [main] and the
    three tunables, which are globals defined outside this file ([None]:
    left as the defining file initialised it). *)
Record locals : Type := mklocals {
  level : Z;
  tar : bool;
  keep_input : bool;
  extreme : bool;
  op : pixz_op_t;
  ipath : option string;
  opath : option string;
  gBlockFraction : option double;
  gPipelineProcessMax : option Z;
  gPipelineQSize : option Z
}.

Definition initial : locals :=
  mklocals LZMA_PRESET_DEFAULT true false false OP_WRITE None None
           None None None.

Definition set_level (v : Z) (s : locals) : locals :=
  mklocals v (tar s) (keep_input s) (extreme s) (op s) (ipath s) (opath s)
           (gBlockFraction s) (gPipelineProcessMax s) (gPipelineQSize s).
Definition set_tar (v : bool) (s : locals) : locals :=
  mklocals (level s) v (keep_input s) (extreme s) (op s) (ipath s) (opath s)
           (gBlockFraction s) (gPipelineProcessMax s) (gPipelineQSize s).
Definition set_keep_input (v : bool) (s : locals) : locals :=
  mklocals (level s) (tar s) v (extreme s) (op s) (ipath s) (opath s)
           (gBlockFraction s) (gPipelineProcessMax s) (gPipelineQSize s).
Definition set_extreme (v : bool) (s : locals) : locals :=
  mklocals (level s) (tar s) (keep_input s) v (op s) (ipath s) (opath s)
           (gBlockFraction s) (gPipelineProcessMax s) (gPipelineQSize s).
Definition set_op (v : pixz_op_t) (s : locals) : locals :=
  mklocals (level s) (tar s) (keep_input s) (extreme s) v (ipath s) (opath s)
           (gBlockFraction s) (gPipelineProcessMax s) (gPipelineQSize s).
Definition set_ipath (v : option string) (s : locals) : locals :=
  mklocals (level s) (tar s) (keep_input s) (extreme s) (op s) v (opath s)
           (gBlockFraction s) (gPipelineProcessMax s) (gPipelineQSize s).
Definition set_opath (v : option string) (s : locals) : locals :=
  mklocals (level s) (tar s) (keep_input s) (extreme s) (op s) (ipath s) v
           (gBlockFraction s) (gPipelineProcessMax s) (gPipelineQSize s).
Definition set_gBlockFraction (v : double) (s : locals) : locals :=
  mklocals (level s) (tar s) (keep_input s) (extreme s) (op s) (ipath s)
           (opath s) (Some v) (gPipelineProcessMax s) (gPipelineQSize s).
Definition set_gPipelineProcessMax (v : Z) (s : locals) : locals :=
  mklocals (level s) (tar s) (keep_input s) (extreme s) (op s) (ipath s)
           (opath s) (gBlockFraction s) (Some v) (gPipelineQSize s).
Definition set_gPipelineQSize (v : Z) (s : locals) : locals :=
  mklocals (level s) (tar s) (keep_input s) (extreme s) (op s) (ipath s)
           (opath s) (gBlockFraction s) (gPipelineProcessMax s) (Some v).

(** One result of [getopt]: the option character and [optarg].  [getopt]
    is a library function, and how it walks the argument vector differs
    between C libraries; [main] is modelled from what it hands over: the
    option characters in the order it returns them (['?'] for a flag it
    rejects) and, once it has returned -1, the remaining arguments. *)
Record gopt : Type := mkopt { ch : ascii; optarg : string }.

(** The body of the [switch (ch)] in the option loop. *)
Definition option_case (w : world) (o : gopt) (s : locals) : M locals :=
  match ch o with
  | "c"%char => ret s
  | "d"%char => ret (set_op OP_READ s)
  | "x"%char => ret (set_op OP_EXTRACT s)
  | "l"%char => ret (set_op OP_LIST s)
  | "i"%char => ret (set_ipath (Some (optarg o)) s)
  | "o"%char => ret (set_opath (Some (optarg o)) s)
  | "t"%char => ret (set_tar false s)
  | "k"%char => ret (set_keep_input true s)
  | "h"%char => usage w None
  | "e"%char => ret (set_extreme true s)
  | "V"%char => version w
  | "f"%char =>
      let '(optdbl, optend) := strtod w (optarg o) in
      when (negb (is_nul (deref optend)) || dle0 optdbl) then
        usage w (Some "Need a positive floating-point argument to -f") ;;
      ret (set_gBlockFraction optdbl s)
  | "p"%char =>
      let '(optint, optend) := strtol (optarg o) in
      when ((optint <? 0) || negb (is_nul (deref optend))) then
        usage w (Some "Need a non-negative integer argument to -p") ;;
      ret (set_gPipelineProcessMax optint s)
  | "q"%char =>
      let '(optint, optend) := strtol (optarg o) in
      when ((optint <=? 0) || negb (is_nul (deref optend))) then
        usage w (Some "Need a positive integer argument to -q") ;;
      ret (set_gPipelineQSize optint s)
  | c =>
      if (code "0" <=? code c) && (code c <=? code "9")
      then ret (set_level (code c - code "0") s)
      else usage w (Some "")
  end.

(** The [while ((ch = getopt(...)) != -1)] loop, over the results
    [getopt] gives until it returns -1. *)
Fixpoint option_loop (w : world) (opts : list gopt) (s : locals) : M locals :=
  match opts with
  | [] => ret s
  | o :: rest => s' <-- option_case w o s ; option_loop w rest s'
  end.

Definition argc (args : list string) : Z := Z.of_nat (List.length args).
Definition argv (args : list string) (i : nat) : string := nth i args "".

Definition is_some {A : Type} (o : option A) : bool :=
  match o with Some _ => true | None => false end.

(** ** The argument block

    The strings of the argument vector lie back to back in one block of
    memory, each with its terminator, the program name first.  So the
    cell in front of a remaining argument holds the NUL that ends the
    string before it, and in front of that lie the characters of the
    earlier strings or, beyond them, what the system put in front of the
    block.  Seven cells in front of the first remaining argument are
    modelled, as many as the longest suffix [auto_output] tests has
    characters: it reads no further. *)
Definition front_cells (w : world) : list (option ascii) :=
  map Some (map (argv_front w) [5; 4; 3; 2; 1; 0]%nat) ++ [Some NUL].

(** [argv[0]] after [argv += optind]: a pointer to the first character
    of the first remaining argument [name], inside the argument block. *)
Definition arg_ptr (w : world) (name : string) : ptr :=
  mkptr (front_cells w ++ array_of name)
        (Z.of_nat (List.length (front_cells w))).

(** [auto_output(op, argv[0])], with the result read back as a string. *)
Definition auto_output_arg (w : world) (op : pixz_op_t) (name : string)
  : res (option string) :=
  r <- auto_output op (arg_ptr w name) ;;
  match r with
  | Some p => s <- string_at p ;; Ok (Some s)
  | None => Ok None
  end.

(** The block after the loop that takes the input and output names from
    the remaining arguments [args] ([argv + optind]); gives the locals and
    [iremove]. *)
Definition positional (w : world) (args : list string) (s : locals)
  : M (locals * bool) :=
  if negb (op_eqb (op s) OP_EXTRACT) && (1 <=? argc args) then
    when ((2 <? argc args) || (op_eqb (op s) OP_LIST && (argc args =? 2)))
      then usage w (Some "Too many arguments") ;;
    when (is_some (ipath s)) then
      usage w (Some "Multiple input files specified") ;;
    let s := set_ipath (Some (argv args 0)) s in
    if argc args =? 2 then
      when (is_some (opath s)) then
        usage w (Some "Multiple output files specified") ;;
      ret (set_opath (Some (argv args 1)) s, false)
    else if negb (op_eqb (op s) OP_LIST) then
      r <-- lift (auto_output_arg w (op s) (argv args 0)) ;
      match r with
      | None => usage w (Some "Unknown suffix")
      | Some o => ret (set_opath (Some o) s, true)
      end
    else ret (s, false)
  else ret (s, false).

(** Opening [gInFile] and [gOutFile].  [gInFile == stdin] holds exactly
    when no input path was given: with a path the stream is the one
    [fopen] made, or the process has ended.  The result of [stat] is not
    tested.  The [_setmode] calls that follow exist only under
    [HAVE__SETMODE] and are left out. *)
Definition open_streams (w : world) (s : locals) : M unit :=
  match ipath s with
  | Some i =>
      emit (Ev_fopen i "r") ;;
      when (negb (fopen_ok w i "r")) then
        die ("can not open input file: " ++ i ++ ": " ++ strerror_errno w i)
  | None => ret tt
  end ;;
  match opath s with
  | Some o =>
      match ipath s with
      | None =>
          emit (Ev_fopen o "w") ;;
          when (negb (fopen_ok w o "w")) then
            die ("can not open output file: " ++ o ++ ": "
                 ++ strerror_errno w o)
      | Some i =>
          emit (Ev_stat i) ;;
          let st_mode :=
            match stat_st_mode w i with
            | Some m => m
            | None => unset_st_mode w
            end in
          emit (Ev_open o [O_CREAT; O_WRONLY] st_mode) ;;
          when (negb (open_ok w o [O_CREAT; O_WRONLY] st_mode)) then
            die ("can not open output file: " ++ o ++ ": "
                 ++ strerror_errno w o) ;;
          emit (Ev_fdopen o "w") ;;
          when (negb (fdopen_ok w o)) then
            die ("can not open output file: " ++ o ++ ": "
                 ++ strerror_errno w o)
      end
  | None => ret tt
  end.

(** A call into the engine. *)
Definition call (w : world) (e : event) : M unit :=
  emit e ;;
  match engine w e with
  | None => ret tt
  | Some msg => die msg
  end.

(** The [switch (op)]. *)
Definition dispatch (w : world) (args : list string) (s : locals) : M unit :=
  match op s with
  | OP_WRITE =>
      emit Ev_isatty_out ;;
      when (out_isatty w (opath s)) then
        usage w (Some "Refusing to output to a TTY") ;;
      let level :=
        if extreme s then Z.lor (level s) LZMA_PRESET_EXTREME
        else level s in
      call w (Ev_pixz_write (tar s) level)
  | OP_READ => call w (Ev_pixz_read (tar s) [])
  | OP_EXTRACT => call w (Ev_pixz_read (tar s) args)
  | OP_LIST => call w (Ev_pixz_list (tar s))
  end.

(** The string a path variable points to; [iremove] is only set after
    [ipath] was. *)
Definition from_path (p : option string) : string :=
  match p with Some i => i | None => "" end.

Definition main_body (w : world) (opts : list gopt) (args : list string)
  : M Z :=
  s <-- option_loop w opts initial ;
  x <-- positional w args s ;
  let '(s, iremove) := x in
  open_streams w s ;;
  dispatch w args s ;;
  when (iremove && negb (keep_input s)) then
    emit (Ev_unlink (from_path (ipath s))) ;;
  ret 0.

(** [main]: what the process does and how it ends. *)
Definition main (w : world) (opts : list gopt) (args : list string)
  : list event * outcome :=
  match main_body w opts args with
  | (t, inl status) => (t, Exit status)
  | (t, inr o) => (t, o)
  end.

(** ** The words of the specification *)

(** A C string has no NUL among its characters. *)
Definition no_nul (l : list ascii) : bool :=
  forallb (fun c => negb (is_nul c)) l.

Definition nonul (s : string) : bool := no_nul (chars s).

(** [suf] is a literal suffix of [name]. *)
Fixpoint ends_with (name suf : string) : bool :=
  String.eqb name suf ||
  match name with
  | String _ r => ends_with r suf
  | EmptyString => false
  end.

(** [name[0 : len - len(suf)]] *)
Definition strip (name suf : string) : string :=
  substring 0 (String.length name - String.length suf) name.

(** The table of the filename resolver: operation, suffix to remove,
    suffix to append. *)
Definition suffix_table : list (pixz_op_t * string * string) :=
  [ (OP_READ, ".tar.xz", ".tar");
    (OP_READ, ".tpxz", ".tar");
    (OP_READ, ".xz", "");
    (OP_WRITE, ".tar", ".tpxz");
    (OP_WRITE, "", ".xz") ]%string.

(** The first rule of the table, from the top, whose operation is the
    active one and whose suffix the name ends with, fires. *)
Fixpoint resolve (table : list (pixz_op_t * string * string))
    (op : pixz_op_t) (name : string) : option string :=
  match table with
  | [] => None
  | (m, remove, append) :: rest =>
      if op_eqb m op && ends_with name remove
      then Some (strip name remove ++ append)%string
      else resolve rest op name
  end.

(** The longest suffix the resolver tests for an operation before the
    table can give its answer. *)
Definition longest_suffix (op : pixz_op_t) : nat :=
  match op with
  | OP_READ => 7
  | OP_WRITE => 4
  | _ => 0
  end.

(** The number a string of decimal digits denotes, after [acc]. *)
Fixpoint decimal_value (s : string) (acc : Z) : Z :=
  match s with
  | String c r => decimal_value r (10 * acc + (code c - code "0"))
  | EmptyString => acc
  end.

(** The integer a string parses completely as: white space, an optional
    sign, and one decimal digit or more, with nothing after them. *)
Definition integer_literal (a : string) : option Z :=
  let '(neg, d) := sign_split (skip_space a) in
  if negb (String.eqb d "") && forallb isdigit (chars d)
  then Some (if neg then - decimal_value d 0 else decimal_value d 0)
  else None.

(** The operation an option character selects, and the level. *)
Definition mode_flag (c : ascii) : option pixz_op_t :=
  if Ascii.eqb c "d" then Some OP_READ
  else if Ascii.eqb c "x" then Some OP_EXTRACT
  else if Ascii.eqb c "l" then Some OP_LIST
  else None.

Definition level_flag (c : ascii) : option Z :=
  if isdigit c then Some (code c - code "0") else None.

(** The value [f] gives for the last element of the list on which it
    gives one. *)
Fixpoint last_some {A B : Type} (f : A -> option B) (l : list A)
  : option B :=
  match l with
  | [] => None
  | a :: r =>
      match last_some f r with
      | Some b => Some b
      | None => f a
      end
  end.

Definition from_option {A : Type} (d : A) (o : option A) : A :=
  match o with Some a => a | None => d end.

(** The later of two optional values, when there is one. *)
Definition from_option_opt {A : Type} (d o : option A) : option A :=
  match o with Some a => Some a | None => d end.

(** ** The ways a run can end, read off the events *)

Definition is_engine_call (e : event) : bool :=
  match e with
  | Ev_pixz_write _ _ | Ev_pixz_read _ _ | Ev_pixz_list _ => true
  | _ => false
  end.

(** The calls that open the streams and the terminal test. *)
Definition is_setup (e : event) : bool :=
  match e with
  | Ev_fopen _ _ | Ev_stat _ | Ev_open _ _ _ | Ev_fdopen _ _
  | Ev_isatty_out => true
  | _ => false
  end.

(** A usage error: a message, then the usage text, at the end of what
    the run wrote. *)
Definition usage_error_reported (w : world) (t : list event) : Prop :=
  exists pre msg,
    t = pre ++ [Ev_stderr (msg ++ nl ++ nl);
                Ev_stderr (usage_text (PACKAGE_VERSION w))].

(** The run that ends in a usage error before anything else was done:
    the message, the usage text, exit code 2. *)
Definition usage_error_run (w : world) (msg : string)
  : list event * outcome :=
  ([Ev_stderr (msg ++ nl ++ nl); Ev_stderr (usage_text (PACKAGE_VERSION w))],
   Exit 2).

(** The help text alone, and the version line alone. *)
Definition help_shown (w : world) (t : list event) : Prop :=
  t = [Ev_stderr (usage_text (PACKAGE_VERSION w))].

Definition version_shown (w : world) (t : list event) : Prop :=
  t = [Ev_stderr ("pixz " ++ PACKAGE_VERSION w ++ nl)].

(** Normal completion: the engine was called and returned, and nothing
    but the removal of the input came after. *)
Definition completed (w : world) (t : list event) : Prop :=
  exists pre e,
    is_engine_call e = true /\ engine w e = None
    /\ (t = pre ++ [e] \/ exists p, t = pre ++ [e; Ev_unlink p]).

(** The shapes of a run of [main]. *)
Inductive ending (w : world) : list event -> outcome -> Prop :=
| End_usage (pre : list event) (msg : string) :
    forallb is_setup pre = true ->
    ending w (pre ++ [Ev_stderr (msg ++ nl ++ nl);
                      Ev_stderr (usage_text (PACKAGE_VERSION w))])
           (Exit 2)
| End_help :
    ending w [Ev_stderr (usage_text (PACKAGE_VERSION w))] (Exit 0)
| End_version :
    ending w [Ev_stderr ("pixz " ++ PACKAGE_VERSION w ++ nl)] (Exit 0)
| End_done (pre : list event) (e : event) (rest : list event) :
    forallb is_setup pre = true ->
    is_engine_call e = true -> engine w e = None ->
    rest = [] \/ (exists p, rest = [Ev_unlink p]) ->
    ending w (pre ++ e :: rest) (Exit 0)
| End_open_failed (t : list event) (msg : string) :
    forallb is_setup t = true ->
    ending w t (Died msg)
| End_engine_died (pre : list event) (e : event) (msg : string) :
    forallb is_setup pre = true ->
    is_engine_call e = true -> engine w e = Some msg ->
    ending w (pre ++ [e]) (Died msg)
| End_undefined :
    ending w [] Undefined.

Definition last_event (t : list event) : option event :=
  match rev t with
  | e :: _ => Some e
  | [] => None
  end.

(** A call that creates a file. *)
Definition creates (e : event) : bool :=
  match e with
  | Ev_open _ _ _ => true
  | Ev_fopen _ mode => String.eqb mode "w"
  | _ => false
  end.

(** File modes: the regular-file bit [S_IFREG] (octal 100000), the
    permission bits (octal 7777), and the modes [rw-r--r--] (octal 644)
    and [rw-------] (octal 600). *)
Definition S_IFREG : Z := 32768.
Definition permission_bits (st_mode : Z) : Z := Z.land st_mode 4095.
Definition mode_0644 : Z := 420.
Definition mode_0600 : Z := 384.

(** The permission bits of the file at [path] after a call of
    [open(path, O_CREAT | O_WRONLY, mode)] that gave a descriptor, as
    POSIX has it: a file that was there is opened as it is and keeps its
    mode; a file the call creates gets the permission bits of [mode] that
    are not set in the file mode creation mask of the process.  Nothing
    in [main] changes the mask or the mode afterwards. *)
Definition mode_after_open (w : world) (path : string) (mode : Z) : Z :=
  match existing_mode w path with
  | Some old => old
  | None => Z.land (permission_bits mode) (Z.lnot (umask w))
  end.

(** The words of the specification on the mode of the output: whenever
    the input is a named file and the output file is opened, the output
    file has exactly the permission bits of the input file. *)
Definition output_has_input_bits (w : world) : Prop :=
  forall (opts : list gopt) (args : list string) (s0 s : locals) (r : bool)
         (i o : string) (m : Z),
    option_loop w opts initial = ret s0 ->
    positional w args s0 = ret (s, r) ->
    ipath s = Some i -> opath s = Some o ->
    fopen_ok w i "r" = true ->
    stat_st_mode w i = Some m ->
    open_ok w o [O_CREAT; O_WRONLY] m = true ->
    mode_after_open w o m = permission_bits m.

(** ** A sample environment

    Every call succeeds, files are regular files with mode 0644
    ([S_IFREG | 0644]), the output is not a terminal, the engine
    returns.  Its [strtod] converts the strings [nan] and [0.5] and
    nothing else.  The program was started as [pixz]: that name and its
    terminator lie in front of the first argument.  The mask is octal
    022, and no output file is there before the run. *)
Definition calm : world := {|
  PACKAGE_VERSION := "1.0.7";
  strtod := fun s =>
    if String.eqb s "nan" then (D_nan, "")
    else if String.eqb s "0.5" then (D_fin (1 # 2), "")
    else (D_fin 0, s);
  fopen_ok := fun _ _ => true;
  stat_st_mode := fun _ => Some (Z.lor S_IFREG mode_0644);
  unset_st_mode := 0;
  open_ok := fun _ _ _ => true;
  fdopen_ok := fun _ => true;
  out_isatty := fun _ => false;
  strerror_errno := fun _ => "";
  engine := fun _ => None;
  argv_front := fun k => nth k ["z"; "x"; "i"; "p"]%char NUL;
  umask := 18;
  existing_mode := fun _ => None
|}.

(** ** Reading the options and the events *)

(** Was the flag [c] given, and the argument of its last occurrence. *)
Definition flag_given (c : ascii) (opts : list gopt) : bool :=
  existsb (fun o => Ascii.eqb (ch o) c) opts.

Definition last_arg (c : ascii) (opts : list gopt) : option string :=
  last_some (fun o => if Ascii.eqb (ch o) c then Some (optarg o) else None)
            opts.

(** The calls into the engine among the events of a run. *)
Definition engine_calls (t : list event) : list event :=
  filter is_engine_call t.

(** The calls that touch the file system. *)
Definition touches_files (e : event) : bool :=
  match e with
  | Ev_fopen _ _ | Ev_stat _ | Ev_open _ _ _ | Ev_fdopen _ _
  | Ev_unlink _ => true
  | _ => false
  end.

Definition is_stat_or_open (e : event) : bool :=
  match e with
  | Ev_stat _ | Ev_open _ _ _ | Ev_fdopen _ _ => true
  | _ => false
  end.

(** A second sample environment: like [calm], but no file can be
    opened. *)
Definition barren : world := {|
  PACKAGE_VERSION := PACKAGE_VERSION calm;
  strtod := strtod calm;
  fopen_ok := fun _ _ => false;
  stat_st_mode := fun _ => None;
  unset_st_mode := 0;
  open_ok := fun _ _ _ => false;
  fdopen_ok := fun _ => false;
  out_isatty := fun _ => false;
  strerror_errno := fun _ => "No such file or directory";
  engine := fun _ => None;
  argv_front := argv_front calm;
  umask := umask calm;
  existing_mode := existing_mode calm
|}.

(** A third sample environment: like [calm], but [stat] fails and the
    mode it would have stored is 0. *)
Definition statless : world := {|
  PACKAGE_VERSION := PACKAGE_VERSION calm;
  strtod := strtod calm;
  fopen_ok := fopen_ok calm;
  stat_st_mode := fun _ => None;
  unset_st_mode := 0;
  open_ok := open_ok calm;
  fdopen_ok := fdopen_ok calm;
  out_isatty := out_isatty calm;
  strerror_errno := strerror_errno calm;
  engine := engine calm;
  argv_front := argv_front calm;
  umask := umask calm;
  existing_mode := existing_mode calm
|}.

(** A fourth sample environment: like [calm], but the mask is octal 077,
    as for a user who keeps new files private. *)
Definition strict : world := {|
  PACKAGE_VERSION := PACKAGE_VERSION calm;
  strtod := strtod calm;
  fopen_ok := fopen_ok calm;
  stat_st_mode := stat_st_mode calm;
  unset_st_mode := unset_st_mode calm;
  open_ok := open_ok calm;
  fdopen_ok := fdopen_ok calm;
  out_isatty := out_isatty calm;
  strerror_errno := strerror_errno calm;
  engine := engine calm;
  argv_front := argv_front calm;
  umask := 63;
  existing_mode := existing_mode calm
|}.

(** A fifth sample environment: like [calm], but the output file
    [notes.txt.xz] is already there, with mode [rw-------]. *)
Definition occupied : world := {|
  PACKAGE_VERSION := PACKAGE_VERSION calm;
  strtod := strtod calm;
  fopen_ok := fopen_ok calm;
  stat_st_mode := stat_st_mode calm;
  unset_st_mode := unset_st_mode calm;
  open_ok := open_ok calm;
  fdopen_ok := fdopen_ok calm;
  out_isatty := out_isatty calm;
  strerror_errno := strerror_errno calm;
  engine := engine calm;
  argv_front := argv_front calm;
  umask := umask calm;
  existing_mode := fun p =>
    if String.eqb p "notes.txt.xz" then Some mode_0600 else None
|}.

(** The four courses of a run whose arguments were accepted: a stream
    cannot be opened; the terminal is refused; the engine ends the
    process; the engine returns and the input is removed or kept. *)
Inductive course (w : world) (s : locals) (r : bool)
  : list event * outcome -> Prop :=
| Course_open_failed (t1 : list event) (msg : string) :
    forallb is_setup t1 = true ->
    open_streams w s = (t1, inr (Died msg)) ->
    course w s r (t1, Died msg)
| Course_refused (t1 : list event) :
    forallb is_setup t1 = true ->
    open_streams w s = (t1, inl tt) ->
    op s = OP_WRITE -> out_isatty w (opath s) = true ->
    course w s r
      (t1 ++ [Ev_isatty_out;
              Ev_stderr ("Refusing to output to a TTY" ++ nl ++ nl);
              Ev_stderr (usage_text (PACKAGE_VERSION w))], Exit 2)
| Course_engine_died (t1 pre : list event) (e : event) (msg : string) :
    forallb is_setup t1 = true ->
    open_streams w s = (t1, inl tt) ->
    pre = [] \/ pre = [Ev_isatty_out] ->
    is_engine_call e = true -> engine w e = Some msg ->
    course w s r (t1 ++ pre ++ [e], Died msg)
| Course_done (t1 pre : list event) (e : event) :
    forallb is_setup t1 = true ->
    open_streams w s = (t1, inl tt) ->
    pre = [] \/ pre = [Ev_isatty_out] ->
    is_engine_call e = true -> engine w e = None ->
    course w s r
      (t1 ++ pre ++ e :: (if r && negb (keep_input s)
                          then [Ev_unlink (from_path (ipath s))]
                          else []), Exit 0).

(** * Properties *)

(** ** Character arrays *)

Section CStrFacts.

Lemma length_chars (s : string) : List.length (chars s) = String.length s.
Proof.
  induction s as [|c s IH]; simpl; [reflexivity | now rewrite IH].
Qed.

Lemma chars_app (a b : string) : chars (a ++ b) = chars a ++ chars b.
Proof.
  induction a as [|c a IH]; simpl; [reflexivity | now rewrite IH].
Qed.

Lemma chars_substring0 (n : nat) (s : string) :
  chars (substring 0 n s) = firstn n (chars s).
Proof.
  revert n. induction s as [|c s IH]; intros [|n]; simpl; try reflexivity.
  now rewrite IH.
Qed.

Lemma chars_inj (a b : string) : chars a = chars b -> a = b.
Proof.
  intros H.
  rewrite <- (string_of_list_ascii_of_string a),
          <- (string_of_list_ascii_of_string b).
  unfold chars in H. now rewrite H.
Qed.

Lemma code_not_nul (c : ascii) : is_nul c = false -> code c <> 0.
Proof.
  unfold is_nul, code, NUL. intros H E.
  apply Ascii.eqb_neq in H. apply H.
  rewrite <- (ascii_nat_embedding c).
  replace (nat_of_ascii c) with O by lia. reflexivity.
Qed.

Lemma no_nul_cons (c : ascii) (l : list ascii) :
  no_nul (c :: l) = true -> is_nul c = false /\ no_nul l = true.
Proof.
  unfold no_nul. simpl. intros H. apply andb_prop in H as [H1 H2].
  split; [now apply negb_true_iff in H1 | exact H2].
Qed.

Lemma no_nul_app (a b : list ascii) :
  no_nul (a ++ b) = no_nul a && no_nul b.
Proof. unfold no_nul. apply forallb_app. Qed.

Lemma no_nul_firstn (n : nat) (l : list ascii) :
  no_nul l = true -> no_nul (firstn n l) = true.
Proof.
  revert n. induction l as [|c l IH]; intros [|n] H; simpl; try reflexivity.
  apply no_nul_cons in H as [H1 H2].
  unfold no_nul in *. simpl. rewrite H1. simpl. now apply IH.
Qed.

Lemma no_nul_skipn (n : nat) (l : list ascii) :
  no_nul l = true -> no_nul (skipn n l) = true.
Proof.
  revert n. induction l as [|c l IH]; intros [|n] H; simpl; try assumption.
  apply no_nul_cons in H as [_ H2]. now apply IH.
Qed.

Lemma strlen_cells_chars (l : list ascii) (r : list (option ascii)) :
  no_nul l = true ->
  strlen_cells (map Some l ++ Some NUL :: r) = Ok (Z.of_nat (List.length l)).
Proof.
  induction l as [|c l IH]; intros H.
  - reflexivity.
  - apply no_nul_cons in H as [H1 H2].
    cbn [map app strlen_cells]. rewrite H1, (IH H2). cbn [rbind].
    f_equal. cbn [List.length]. lia.
Qed.

Lemma string_cells_chars (l : list ascii) (r : list (option ascii)) :
  no_nul l = true ->
  string_cells (map Some l ++ Some NUL :: r) = Ok (string_of_list_ascii l).
Proof.
  induction l as [|c l IH]; intros H.
  - reflexivity.
  - apply no_nul_cons in H as [H1 H2].
    cbn [map app string_cells]. rewrite H1, (IH H2). reflexivity.
Qed.

Lemma strcmp_cells_chars (l1 l2 : list ascii) (r1 r2 : list (option ascii)) :
  no_nul l1 = true -> no_nul l2 = true ->
  exists c,
    strcmp_cells (map Some l1 ++ Some NUL :: r1)
                 (map Some l2 ++ Some NUL :: r2) = Ok c
    /\ (c = 0 <-> l1 = l2).
Proof.
  revert l2. induction l1 as [|c1 l1 IH]; intros [|c2 l2] H1 H2.
  - exists 0. split; [reflexivity | tauto].
  - apply no_nul_cons in H2 as [H2 _].
    cbn [map app strcmp_cells].
    replace (Ascii.eqb NUL c2) with false
      by (symmetry; rewrite Ascii.eqb_sym; exact H2).
    cbn [negb]. eexists. split; [reflexivity|].
    apply code_not_nul in H2. unfold code in H2. cbn.
    split; [lia | discriminate].
  - apply no_nul_cons in H1 as [H1 _].
    cbn [map app strcmp_cells]. unfold is_nul in H1. rewrite H1.
    cbn [negb]. eexists. split; [reflexivity|].
    apply code_not_nul in H1. unfold code in H1. cbn.
    split; [lia | discriminate].
  - apply no_nul_cons in H1 as [N1 H1]. apply no_nul_cons in H2 as [N2 H2].
    cbn [map app strcmp_cells].
    destruct (Ascii.eqb c1 c2) eqn:E; cbn [negb].
    + apply Ascii.eqb_eq in E. subst c2. rewrite N1.
      destruct (IH l2 H1 H2) as [c [Hc Hi]].
      exists c. split; [exact Hc|].
      rewrite Hi. split; [now intros -> | now intros [= ->]].
    + eexists. split; [reflexivity|].
      apply Ascii.eqb_neq in E.
      split.
      * intros Hz. exfalso. apply E.
        rewrite <- (ascii_nat_embedding c1), <- (ascii_nat_embedding c2).
        f_equal. lia.
      * intros [= -> _]. now elim E.
Qed.

Lemma cells_at_start (l : list (option ascii)) : cells_at (mkptr l 0) = Ok l.
Proof.
  unfold cells_at. cbn [ofs blk].
  replace (Z.of_nat (List.length l) <? 0) with false
    by (symmetry; apply Z.ltb_ge; lia).
  reflexivity.
Qed.

Lemma strlen_ptr_of (s : string) :
  nonul s = true -> strlen (ptr_of s) = Ok (Z.of_nat (String.length s)).
Proof.
  intros H. unfold strlen, ptr_of. rewrite cells_at_start. cbn [rbind].
  unfold array_of. rewrite strlen_cells_chars by exact H.
  now rewrite length_chars.
Qed.

Lemma string_at_ptr_of (s : string) :
  nonul s = true -> string_at (ptr_of s) = Ok s.
Proof.
  intros H. unfold string_at, ptr_of. rewrite cells_at_start. cbn [rbind].
  unfold array_of. rewrite string_cells_chars by exact H.
  unfold chars. now rewrite string_of_list_ascii_of_string.
Qed.

End CStrFacts.

(** ** The suffix test and the substitution *)

Section SuffixFacts.

Lemma ends_with_length (name suf : string) :
  ends_with name suf = true -> (String.length suf <= String.length name)%nat.
Proof.
  induction name as [|c name IH]; cbn [ends_with]; intros H.
  - rewrite orb_false_r in H. apply String.eqb_eq in H. subst. apply le_n.
  - apply orb_true_iff in H as [H|H].
    + apply String.eqb_eq in H. subst. apply le_n.
    + apply IH in H. cbn [String.length]. lia.
Qed.

Lemma ends_with_skipn (name suf : string) :
  (String.length suf <= String.length name)%nat ->
  ends_with name suf = true <->
  skipn (String.length name - String.length suf) (chars name) = chars suf.
Proof.
  induction name as [|c name IH]; intros L.
  - cbn [ends_with String.length Nat.sub chars list_ascii_of_string skipn].
    rewrite orb_false_r, String.eqb_eq.
    split; [now intros <- | intros H; now apply chars_inj].
  - cbn [ends_with]. rewrite orb_true_iff, String.eqb_eq.
    destruct (Nat.eq_dec (String.length suf) (String.length (String c name)))
      as [E|E].
    + rewrite E, Nat.sub_diag. cbn [skipn]. split.
      * intros [H|H]; [now subst|].
        apply ends_with_length in H. cbn [String.length] in E. lia.
      * intros H. left. now apply chars_inj.
    + cbn [String.length] in *.
      replace (S (String.length name) - String.length suf)%nat
        with (S (String.length name - String.length suf)) by lia.
      cbn [chars list_ascii_of_string skipn].
      fold (chars name). rewrite <- IH by lia. split.
      * intros [H|H]; [|exact H]. subst suf. cbn [String.length] in E. lia.
      * intros H. now right.
Qed.

Lemma skipn_array_of (s : string) (k : nat) :
  (k <= String.length s)%nat ->
  skipn k (array_of s) = map Some (skipn k (chars s)) ++ [Some NUL].
Proof.
  intros L. unfold array_of.
  rewrite skipn_app, length_map, length_chars, skipn_map.
  replace (k - String.length s)%nat with O by lia. reflexivity.
Qed.

Lemma length_array_of (s : string) :
  List.length (array_of s) = S (String.length s).
Proof.
  unfold array_of. rewrite length_app, length_map, length_chars.
  cbn [List.length]. lia.
Qed.

(** On a string that stands alone in its array the suffix test stays
    inside the array exactly when the suffix is at most as long as the
    string, and then it is the test of the specification. *)
Lemma strsuf_ptr_of (big small : string) :
  nonul big = true -> nonul small = true ->
  strsuf (ptr_of big) (ptr_of small) =
  if (String.length small <=? String.length big)%nat
  then Ok (ends_with big small)
  else Undef.
Proof.
  intros Hb Hs. unfold strsuf.
  rewrite (strlen_ptr_of big Hb), (strlen_ptr_of small Hs). cbn [rbind].
  unfold strcmp, cells_at at 1, psub, padd, ptr_of. cbn [ofs blk].
  rewrite length_array_of.
  destruct (Nat.leb_spec (String.length small) (String.length big)) as [L|L].
  - replace (0 + Z.of_nat (String.length big)
             - Z.of_nat (String.length small) <? 0) with false
      by (symmetry; apply Z.ltb_ge; lia).
    replace (Z.of_nat (S (String.length big))
             <? 0 + Z.of_nat (String.length big)
                - Z.of_nat (String.length small)) with false
      by (symmetry; apply Z.ltb_ge; lia).
    cbn [orb rbind]. rewrite cells_at_start. cbn [rbind].
    replace (Z.to_nat (0 + Z.of_nat (String.length big)
                       - Z.of_nat (String.length small)))
      with (String.length big - String.length small)%nat by lia.
    rewrite skipn_array_of by lia. unfold array_of at 1.
    destruct (strcmp_cells_chars
                (skipn (String.length big - String.length small) (chars big))
                (chars small) [] [])
      as [c [Hc Hi]];
      [now apply no_nul_skipn | exact Hs |].
    rewrite Hc. cbn [rbind]. f_equal.
    rewrite <- (ends_with_skipn big small L) in Hi.
    destruct (ends_with big small).
    + apply Z.eqb_eq. now apply Hi.
    + apply Z.eqb_neq. intros E. apply Hi in E. discriminate.
  - replace (0 + Z.of_nat (String.length big)
             - Z.of_nat (String.length small) <? 0) with true
      by (symmetry; apply Z.ltb_lt; lia).
    reflexivity.
Qed.

End SuffixFacts.

Section SubstitutionFacts.

Lemma store_cells_fresh (N : nat) (new : list (option ascii)) :
  (List.length new <= N)%nat ->
  store_cells (repeat None N) 0 new
  = Ok (new ++ repeat None (N - List.length new)).
Proof.
  intros L. unfold store_cells. rewrite repeat_length.
  replace (Z.of_nat N <? 0 + Z.of_nat (List.length new)) with false
    by (symmetry; apply Z.ltb_ge; lia).
  cbn [Z.ltb Z.compare orb Z.to_nat firstn app Nat.add].
  do 2 f_equal. revert N L. generalize (List.length new) as k.
  induction k as [|k IH]; intros [|N] L; cbn [skipn repeat Nat.sub];
    try reflexivity; try lia.
  apply IH. lia.
Qed.

Lemma store_cells_tail (a b new : list (option ascii)) :
  List.length new = List.length b ->
  store_cells (a ++ b) (Z.of_nat (List.length a)) new = Ok (a ++ new).
Proof.
  intros L. unfold store_cells. rewrite length_app.
  replace (Z.of_nat (List.length a) <? 0) with false
    by (symmetry; apply Z.ltb_ge; lia).
  replace (Z.of_nat (List.length a + List.length b)
           <? Z.of_nat (List.length a) + Z.of_nat (List.length new))
    with false by (symmetry; apply Z.ltb_ge; lia).
  cbn [orb]. rewrite Nat2Z.id. f_equal.
  rewrite firstn_app, firstn_all, Nat.sub_diag. cbn [firstn].
  rewrite app_nil_r. f_equal.
  rewrite skipn_all2 by (rewrite length_app; lia).
  apply app_nil_r.
Qed.

Lemma firstn_array_of (s : string) (k : nat) :
  (k <= String.length s)%nat ->
  firstn k (array_of s) = map Some (firstn k (chars s)).
Proof.
  intros L. unfold array_of.
  rewrite firstn_app, length_map, length_chars, firstn_map.
  replace (k - String.length s)%nat with O by lia.
  cbn [firstn]. apply app_nil_r.
Qed.

Lemma array_of_app (a b : string) :
  array_of (a ++ b) = map Some (chars a) ++ array_of b.
Proof.
  unfold array_of. now rewrite chars_app, map_app, <- app_assoc.
Qed.

Lemma wrap_small (z : Z) : 0 <= z < size_max -> wrap z = z.
Proof. intros H. unfold wrap. now apply Z.mod_small. Qed.

(** [subsuf] on strings that stand alone in their arrays: a read in
    front of the array when the suffix to remove is longer than the name,
    the NULL result when the name does not end with it, and the
    substitution otherwise. *)
Lemma subsuf_ptr_of (name suf1 suf2 : string) :
  nonul name = true -> nonul suf1 = true -> nonul suf2 = true ->
  Z.of_nat (String.length name) + Z.of_nat (String.length suf2) + 1
    < size_max ->
  subsuf (ptr_of name) (ptr_of suf1) (ptr_of suf2) =
  if (String.length suf1 <=? String.length name)%nat
  then if ends_with name suf1
       then Ok (Some (ptr_of (strip name suf1 ++ suf2)))
       else Ok None
  else Undef.
Proof.
  intros Hn H1 H2 Hsz. unfold subsuf.
  rewrite (strsuf_ptr_of name suf1 Hn H1).
  destruct (Nat.leb_spec (String.length suf1) (String.length name)) as [L|L];
    [|reflexivity].
  cbn [rbind]. destruct (ends_with name suf1); [|reflexivity].
  cbn [negb].
  rewrite (strlen_ptr_of name Hn), (strlen_ptr_of suf1 H1),
          (strlen_ptr_of suf2 H2).
  cbn [rbind].
  set (li := String.length name) in *. set (l1 := String.length suf1) in *.
  set (l2 := String.length suf2) in *.
  rewrite !wrap_small by lia.
  unfold memcpy, xmalloc, ptr_of at 1. rewrite cells_at_start.
  cbn [rbind blk ofs].
  rewrite length_array_of. fold li.
  replace (Z.of_nat li - Z.of_nat l1 <? 0) with false
    by (symmetry; apply Z.ltb_ge; lia).
  replace (Z.of_nat (S li) <? Z.of_nat li - Z.of_nat l1) with false
    by (symmetry; apply Z.ltb_ge; lia).
  cbn [orb].
  replace (Z.to_nat (Z.of_nat li - Z.of_nat l1)) with (li - l1)%nat by lia.
  rewrite firstn_array_of by (fold li; lia).
  assert (Hlen : List.length (map Some (firstn (li - l1) (chars name)))
                 = (li - l1)%nat).
  { rewrite length_map, length_firstn, length_chars. fold li. lia. }
  rewrite store_cells_fresh by (rewrite Hlen; lia).
  cbn [rbind]. rewrite Hlen.
  replace (Z.to_nat (Z.of_nat li + Z.of_nat l2 - Z.of_nat l1 + 1)
           - (li - l1))%nat with (S l2) by lia.
  unfold strcpy, psub, padd, ptr_of at 1. cbn [blk ofs].
  rewrite cells_at_start. cbn [rbind].
  unfold array_of at 1. rewrite strlen_cells_chars by exact H2.
  cbn [rbind]. rewrite length_chars. fold l2.
  replace (Z.to_nat (Z.of_nat l2 + 1)) with (S l2) by lia.
  rewrite (@firstn_all2 _ (S l2) (array_of suf2))
    by (rewrite length_array_of; fold l2; lia).
  replace (0 + Z.of_nat li - Z.of_nat l1)
    with (Z.of_nat
            (List.length (map Some (firstn (li - l1) (chars name)))))
    by (rewrite Hlen; lia).
  rewrite store_cells_tail
    by (rewrite length_array_of, repeat_length; fold l2; lia).
  cbn [rbind]. unfold ptr_of. do 3 f_equal.
  rewrite array_of_app. unfold strip. rewrite chars_substring0.
  reflexivity.
Qed.

End SubstitutionFacts.

Section ResolverFacts.

Lemma nonul_substitution (name suf1 suf2 : string) :
  nonul name = true -> nonul suf2 = true ->
  nonul (strip name suf1 ++ suf2) = true.
Proof.
  intros Hn H2. unfold nonul, strip in *.
  rewrite chars_app, no_nul_app, chars_substring0.
  rewrite no_nul_firstn by exact Hn. exact H2.
Qed.

Lemma SUF_ptr_of (op _op : pixz_op_t) (name s1 s2 : string)
    (next : res (option ptr)) :
  nonul name = true -> nonul s1 = true -> nonul s2 = true ->
  Z.of_nat (String.length name) + Z.of_nat (String.length s2) + 1
    < size_max ->
  SUF op (ptr_of name) _op s1 s2 next =
  if op_eqb op _op then
    if (String.length s1 <=? String.length name)%nat
    then if ends_with name s1
         then Ok (Some (ptr_of (strip name s1 ++ s2)))
         else next
    else Undef
  else next.
Proof.
  intros Hn H1 H2 Hsz. unfold SUF.
  destruct (op_eqb op _op); [|reflexivity].
  rewrite (subsuf_ptr_of name s1 s2 Hn H1 H2 Hsz).
  destruct (String.length s1 <=? String.length name)%nat; [|reflexivity].
  destruct (ends_with name s1); reflexivity.
Qed.

(** The resolver of the code, on a name that stands alone in its array,
    against the table of the specification: on a name at least as long as
    the longest suffix tested for the operation the two agree, and on a
    shorter name the suffix test reads in front of the array. *)
Lemma auto_output_str_resolve (op : pixz_op_t) (name : string) :
  nonul name = true ->
  Z.of_nat (String.length name) + 6 < size_max ->
  auto_output_str op name =
  if (longest_suffix op <=? String.length name)%nat
  then Ok (resolve suffix_table op name)
  else Undef.
Proof.
  intros Hn Hsz. unfold auto_output_str, auto_output.
  rewrite !SUF_ptr_of
    by (try reflexivity; try exact Hn;
        unfold size_max in *; cbn [String.length]; lia).
  unfold suffix_table. cbn [resolve].
  destruct op; cbn [op_eqb longest_suffix andb String.length];
    try reflexivity.
  - (* OP_WRITE *)
    destruct (Nat.leb_spec 4 (String.length name)) as [L|L].
    + destruct (ends_with name ".tar") eqn:E1; cbn [rbind].
      * rewrite string_at_ptr_of
          by (apply nonul_substitution; [exact Hn | reflexivity]).
        reflexivity.
      * assert (E2 : ends_with name "" = true).
        { clear. induction name as [|c name IH]; [reflexivity|].
          cbn [ends_with]. rewrite IH. apply orb_true_r. }
        rewrite E2. cbn [Nat.leb rbind].
        rewrite string_at_ptr_of
          by (apply nonul_substitution; [exact Hn | reflexivity]).
        reflexivity.
    + reflexivity.
  - (* OP_READ *)
    destruct (Nat.leb_spec 7 (String.length name)) as [L|L].
    + replace (5 <=? String.length name)%nat with true
        by (symmetry; apply Nat.leb_le; lia).
      replace (3 <=? String.length name)%nat with true
        by (symmetry; apply Nat.leb_le; lia).
      destruct (ends_with name ".tar.xz"); cbn [rbind].
      { rewrite string_at_ptr_of
          by (apply nonul_substitution; [exact Hn | reflexivity]).
        reflexivity. }
      destruct (ends_with name ".tpxz"); cbn [rbind].
      { rewrite string_at_ptr_of
          by (apply nonul_substitution; [exact Hn | reflexivity]).
        reflexivity. }
      destruct (ends_with name ".xz"); cbn [rbind]; [|reflexivity].
      rewrite string_at_ptr_of
        by (apply nonul_substitution; [exact Hn | reflexivity]).
      reflexivity.
    + reflexivity.
Qed.

Lemma ends_with_empty (name : string) : ends_with name "" = true.
Proof.
  induction name as [|c name IH]; [reflexivity|].
  cbn [ends_with]. rewrite IH. apply orb_true_r.
Qed.

Lemma strip_empty (name : string) : strip name "" = name.
Proof.
  unfold strip. cbn [String.length]. rewrite Nat.sub_0_r.
  induction name as [|c name IH]; [reflexivity|].
  cbn [String.length substring]. now rewrite IH.
Qed.

Lemma append_empty (a : string) : (a ++ "")%string = a.
Proof. induction a as [|c a IH]; [reflexivity|]. cbn. now rewrite IH. Qed.

(** X5.  In Read mode, on a name of seven characters or more, the
    resolver tries [.tar.xz], then [.tpxz], then [.xz], takes the first of
    them the name ends with, removes it and appends [.tar] for the first
    two and nothing for the third; it gives NULL when the name ends with
    none of them. *)
Lemma read_resolution_long_name (name : string) :
  nonul name = true ->
  (7 <= String.length name)%nat ->
  Z.of_nat (String.length name) + 6 < size_max ->
  auto_output_str OP_READ name =
  Ok (if ends_with name ".tar.xz"
      then Some (strip name ".tar.xz" ++ ".tar")%string
      else if ends_with name ".tpxz"
      then Some (strip name ".tpxz" ++ ".tar")%string
      else if ends_with name ".xz"
      then Some (strip name ".xz")
      else None).
Proof.
  intros Hn L Hsz. rewrite (auto_output_str_resolve OP_READ name Hn Hsz).
  cbn [longest_suffix].
  replace (7 <=? String.length name)%nat with true
    by (symmetry; now apply Nat.leb_le).
  unfold suffix_table. cbn [resolve op_eqb andb].
  now rewrite append_empty.
Qed.

(** X6.  In Write mode, on a name of four characters or more, the
    resolver never gives NULL: a name that ends in [.tar] gets [.tpxz] in
    its place, and any other name gets [.xz] appended. *)
Lemma write_resolution_long_name (name : string) :
  nonul name = true ->
  (4 <= String.length name)%nat ->
  Z.of_nat (String.length name) + 6 < size_max ->
  auto_output_str OP_WRITE name =
  Ok (Some (if ends_with name ".tar"
            then strip name ".tar" ++ ".tpxz"
            else name ++ ".xz")%string).
Proof.
  intros Hn L Hsz. rewrite (auto_output_str_resolve OP_WRITE name Hn Hsz).
  cbn [longest_suffix].
  replace (4 <=? String.length name)%nat with true
    by (symmetry; now apply Nat.leb_le).
  unfold suffix_table. cbn [resolve op_eqb andb].
  rewrite ends_with_empty, strip_empty.
  now destruct (ends_with name ".tar").
Qed.

End ResolverFacts.

(** ** The resolver on an argument in its block *)

Section BlockFacts.

(** Against characters that end in a NUL before the second string does,
    [strcmp] finds a difference. *)
Lemma strcmp_cells_front (f l2 : list ascii) (r1 r2 : list (option ascii)) :
  no_nul l2 = true -> (List.length f < List.length l2)%nat ->
  exists c,
    strcmp_cells (map Some f ++ Some NUL :: r1)
                 (map Some l2 ++ Some NUL :: r2) = Ok c
    /\ c <> 0.
Proof.
  revert l2. induction f as [|a f IH]; intros [|c2 l2] H2 L;
    cbn [List.length] in L; try lia.
  - apply no_nul_cons in H2 as [H2 _].
    cbn [map app strcmp_cells].
    replace (Ascii.eqb NUL c2) with false
      by (symmetry; rewrite Ascii.eqb_sym; exact H2).
    cbn [negb]. eexists. split; [reflexivity|].
    apply code_not_nul in H2. unfold code in H2. cbn. lia.
  - apply no_nul_cons in H2 as [N2 H2].
    cbn [map app strcmp_cells].
    destruct (Ascii.eqb a c2) eqn:E; cbn [negb].
    + apply Ascii.eqb_eq in E. subst c2. rewrite N2.
      apply IH; [exact H2 | lia].
    + eexists. split; [reflexivity|].
      apply Ascii.eqb_neq in E. intros Hz. apply E.
      rewrite <- (ascii_nat_embedding a), <- (ascii_nat_embedding c2).
      f_equal. lia.
Qed.

Lemma cells_at_in_block (front rest : list (option ascii)) :
  cells_at (mkptr (front ++ rest) (Z.of_nat (List.length front))) = Ok rest.
Proof.
  unfold cells_at. cbn [ofs blk]. rewrite length_app.
  replace (Z.of_nat (List.length front) <? 0) with false
    by (symmetry; apply Z.ltb_ge; lia).
  replace (Z.of_nat (List.length front + List.length rest)
           <? Z.of_nat (List.length front)) with false
    by (symmetry; apply Z.ltb_ge; lia).
  cbn [orb]. rewrite Nat2Z.id, skipn_app, skipn_all, Nat.sub_diag.
  reflexivity.
Qed.

Lemma ends_with_longer (name suf : string) :
  (String.length name < String.length suf)%nat -> ends_with name suf = false.
Proof.
  intros L. destruct (ends_with name suf) eqn:E; [|reflexivity].
  apply ends_with_length in E. lia.
Qed.

(** The suffix test on a string that has a NUL and [f] in front of it in
    its block: as long as the read stays inside the block the test is the
    one of the specification, also when the suffix is the longer. *)
Lemma strsuf_in_block (f : list ascii) (big small : string) :
  nonul big = true -> nonul small = true ->
  (String.length small <= String.length big + S (List.length f))%nat ->
  strsuf (mkptr ((map Some f ++ [Some NUL]) ++ array_of big)
                (Z.of_nat (List.length (map Some f ++ [Some NUL]))))
         (ptr_of small)
  = Ok (ends_with big small).
Proof.
  intros Hb Hs L. unfold strsuf, strlen at 1.
  rewrite cells_at_in_block. cbn [rbind].
  unfold array_of at 1. rewrite strlen_cells_chars by exact Hb.
  rewrite length_chars, (strlen_ptr_of small Hs). cbn [rbind].
  unfold strcmp, cells_at at 1, psub, padd, ptr_of. cbn [ofs blk].
  rewrite !length_app, length_map, length_array_of. cbn [List.length].
  set (bl := String.length big) in *. set (sl := String.length small) in *.
  set (n := List.length f) in *.
  replace (Z.of_nat (n + 1) + Z.of_nat bl - Z.of_nat sl <? 0) with false
    by (symmetry; apply Z.ltb_ge; lia).
  replace (Z.of_nat (n + 1 + S bl)
           <? Z.of_nat (n + 1) + Z.of_nat bl - Z.of_nat sl) with false
    by (symmetry; apply Z.ltb_ge; lia).
  cbn [orb rbind]. rewrite cells_at_start. cbn [rbind].
  destruct (Nat.leb_spec sl bl) as [C|C].
  - replace (Z.to_nat (Z.of_nat (n + 1) + Z.of_nat bl - Z.of_nat sl))
      with (List.length (map Some f ++ [Some NUL]) + (bl - sl))%nat
      by (rewrite length_app, length_map; cbn [List.length]; fold n; lia).
    rewrite skipn_app, skipn_all2 by lia.
    replace (List.length (map Some f ++ [Some NUL]) + (bl - sl)
             - List.length (map Some f ++ [Some NUL]))%nat
      with (bl - sl)%nat by lia.
    cbn [app]. rewrite skipn_array_of by (fold bl; lia).
    unfold array_of at 1.
    destruct (strcmp_cells_chars (skipn (bl - sl) (chars big)) (chars small)
                [] [])
      as [c [Hc Hi]];
      [now apply no_nul_skipn | exact Hs |].
    rewrite Hc. cbn [rbind]. f_equal.
    unfold bl, sl in Hi.
    rewrite <- (ends_with_skipn big small C) in Hi.
    destruct (ends_with big small).
    + apply Z.eqb_eq. now apply Hi.
    + apply Z.eqb_neq. intros E. apply Hi in E. discriminate.
  - rewrite (ends_with_longer big small C).
    set (j := (n + 1 + bl - sl)%nat).
    replace (Z.to_nat (Z.of_nat (n + 1) + Z.of_nat bl - Z.of_nat sl))
      with j by (unfold j; lia).
    rewrite <- app_assoc, skipn_app, length_map, skipn_map. fold n.
    replace (j - n)%nat with O by (unfold j; lia).
    cbn [skipn app]. unfold array_of at 2.
    destruct (strcmp_cells_front (skipn j f) (chars small)
                (array_of big) [])
      as [c [Hc Hi]];
      [exact Hs | rewrite length_skipn, length_chars; fold n sl; unfold j; lia |].
    rewrite Hc. cbn [rbind]. f_equal. now apply Z.eqb_neq.
Qed.

(** [subsuf] on any pointer to the string [name] on which the suffix
    test is the one of the specification. *)
Lemma subsuf_at (p : ptr) (name suf1 suf2 : string) :
  nonul name = true -> nonul suf1 = true -> nonul suf2 = true ->
  Z.of_nat (String.length name) + Z.of_nat (String.length suf2) + 1
    < size_max ->
  cells_at p = Ok (array_of name) ->
  strsuf p (ptr_of suf1) = Ok (ends_with name suf1) ->
  subsuf p (ptr_of suf1) (ptr_of suf2) =
  if ends_with name suf1
  then Ok (Some (ptr_of (strip name suf1 ++ suf2)))
  else Ok None.
Proof.
  intros Hn H1 H2 Hsz Hp Hsuf. unfold subsuf. rewrite Hsuf. cbn [rbind].
  destruct (ends_with name suf1) eqn:E; [|reflexivity].
  pose proof (ends_with_length name suf1 E) as L.
  cbn [negb]. unfold strlen at 1. rewrite Hp. cbn [rbind].
  unfold array_of at 1. rewrite strlen_cells_chars by exact Hn.
  rewrite length_chars, (strlen_ptr_of suf1 H1), (strlen_ptr_of suf2 H2).
  cbn [rbind].
  set (li := String.length name) in *. set (l1 := String.length suf1) in *.
  set (l2 := String.length suf2) in *.
  rewrite !wrap_small by lia.
  unfold memcpy, xmalloc. rewrite Hp.
  cbn [rbind blk ofs].
  rewrite length_array_of. fold li.
  replace (Z.of_nat li - Z.of_nat l1 <? 0) with false
    by (symmetry; apply Z.ltb_ge; lia).
  replace (Z.of_nat (S li) <? Z.of_nat li - Z.of_nat l1) with false
    by (symmetry; apply Z.ltb_ge; lia).
  cbn [orb].
  replace (Z.to_nat (Z.of_nat li - Z.of_nat l1)) with (li - l1)%nat by lia.
  rewrite firstn_array_of by (fold li; lia).
  assert (Hlen : List.length (map Some (firstn (li - l1) (chars name)))
                 = (li - l1)%nat).
  { rewrite length_map, length_firstn, length_chars. fold li. lia. }
  rewrite store_cells_fresh by (rewrite Hlen; lia).
  cbn [rbind]. rewrite Hlen.
  replace (Z.to_nat (Z.of_nat li + Z.of_nat l2 - Z.of_nat l1 + 1)
           - (li - l1))%nat with (S l2) by lia.
  unfold strcpy, psub, padd, ptr_of at 1. cbn [blk ofs].
  rewrite cells_at_start. cbn [rbind].
  unfold array_of at 1. rewrite strlen_cells_chars by exact H2.
  cbn [rbind]. rewrite length_chars. fold l2.
  replace (Z.to_nat (Z.of_nat l2 + 1)) with (S l2) by lia.
  rewrite (@firstn_all2 _ (S l2) (array_of suf2))
    by (rewrite length_array_of; fold l2; lia).
  replace (0 + Z.of_nat li - Z.of_nat l1)
    with (Z.of_nat
            (List.length (map Some (firstn (li - l1) (chars name)))))
    by (rewrite Hlen; lia).
  rewrite store_cells_tail
    by (rewrite length_array_of, repeat_length; fold l2; lia).
  cbn [rbind]. unfold ptr_of. do 3 f_equal.
  rewrite array_of_app. unfold strip. rewrite chars_substring0.
  reflexivity.
Qed.

Variable w : world.

Lemma cells_at_arg_ptr (name : string) :
  cells_at (arg_ptr w name) = Ok (array_of name).
Proof. unfold arg_ptr. apply cells_at_in_block. Qed.

(** On the first remaining argument the suffix test is the one of the
    specification for every suffix of at most seven characters. *)
Lemma strsuf_arg_ptr (name suf : string) :
  nonul name = true -> nonul suf = true ->
  (String.length suf <= 7)%nat ->
  strsuf (arg_ptr w name) (ptr_of suf) = Ok (ends_with name suf).
Proof.
  intros Hn Hs L. unfold arg_ptr, front_cells.
  apply strsuf_in_block; [exact Hn | exact Hs |].
  rewrite length_map. cbn [List.length]. lia.
Qed.

Lemma SUF_arg_ptr (op _op : pixz_op_t) (name s1 s2 : string)
    (next : res (option ptr)) :
  nonul name = true -> nonul s1 = true -> nonul s2 = true ->
  (String.length s1 <= 7)%nat ->
  Z.of_nat (String.length name) + Z.of_nat (String.length s2) + 1
    < size_max ->
  SUF op (arg_ptr w name) _op s1 s2 next =
  if op_eqb op _op then
    if ends_with name s1
    then Ok (Some (ptr_of (strip name s1 ++ s2)))
    else next
  else next.
Proof.
  intros Hn H1 H2 L Hsz. unfold SUF.
  destruct (op_eqb op _op); [|reflexivity].
  rewrite (subsuf_at (arg_ptr w name) name s1 s2 Hn H1 H2 Hsz
             (cells_at_arg_ptr name) (strsuf_arg_ptr name s1 Hn H1 L)).
  destruct (ends_with name s1); reflexivity.
Qed.

(** The resolver of the code, called as [main] calls it, against the
    table of the specification: the two agree on every name. *)
Lemma auto_output_arg_resolve (op : pixz_op_t) (name : string) :
  nonul name = true ->
  Z.of_nat (String.length name) + 6 < size_max ->
  auto_output_arg w op name = Ok (resolve suffix_table op name).
Proof.
  intros Hn Hsz. unfold auto_output_arg, auto_output.
  rewrite !SUF_arg_ptr
    by (try reflexivity; try exact Hn;
        unfold size_max in *; cbn [String.length]; lia).
  unfold suffix_table. cbn [resolve].
  destruct op; cbn [op_eqb andb]; try reflexivity.
  - (* OP_WRITE *)
    destruct (ends_with name ".tar"); cbn [rbind].
    + rewrite string_at_ptr_of
        by (apply nonul_substitution; [exact Hn | reflexivity]).
      reflexivity.
    + rewrite ends_with_empty. cbn [rbind].
      rewrite string_at_ptr_of
        by (apply nonul_substitution; [exact Hn | reflexivity]).
      reflexivity.
  - (* OP_READ *)
    destruct (ends_with name ".tar.xz"); cbn [rbind].
    { rewrite string_at_ptr_of
        by (apply nonul_substitution; [exact Hn | reflexivity]).
      reflexivity. }
    destruct (ends_with name ".tpxz"); cbn [rbind].
    { rewrite string_at_ptr_of
        by (apply nonul_substitution; [exact Hn | reflexivity]).
      reflexivity. }
    destruct (ends_with name ".xz"); cbn [rbind]; [|reflexivity].
    rewrite string_at_ptr_of
      by (apply nonul_substitution; [exact Hn | reflexivity]).
    reflexivity.
Qed.

End BlockFacts.

(** ** The process monad *)

Section MonadFacts.

Context {A B : Type}.

Lemma bind_ret_l (a : A) (f : A -> M B) : bind (ret a) f = f a.
Proof. unfold bind, ret. destruct (f a) as [t r]. reflexivity. Qed.

Lemma bind_halted (t : list event) (o : outcome) (f : A -> M B) :
  bind (t, inr o) f = (t, inr o).
Proof. reflexivity. Qed.

Lemma bind_inl (m : M A) (f : A -> M B) (t : list event) (b : B) :
  bind m f = (t, inl b) ->
  exists t1 a t2, m = (t1, inl a) /\ f a = (t2, inl b) /\ t = t1 ++ t2.
Proof.
  destruct m as [t1 [a|o]]; cbn [bind]; [|discriminate].
  destruct (f a) as [t2 r] eqn:E. intros [= <- ->].
  now exists t1, a, t2.
Qed.

End MonadFacts.

Lemma usage_some {A : Type} (w : world) (msg : string) :
  @usage A w (Some msg) =
  ([Ev_stderr (msg ++ nl ++ nl); Ev_stderr (usage_text (PACKAGE_VERSION w))],
   inr (Exit 2)).
Proof. reflexivity. Qed.

Lemma usage_none {A : Type} (w : world) :
  @usage A w None =
  ([Ev_stderr (usage_text (PACKAGE_VERSION w))], inr (Exit 0)).
Proof. reflexivity. Qed.

Lemma version_eq {A : Type} (w : world) :
  @version A w =
  ([Ev_stderr ("pixz " ++ PACKAGE_VERSION w ++ nl)], inr (Exit 0)).
Proof. reflexivity. Qed.

Lemma when_usage {A : Type} (w : world) (c : bool) (msg : string)
    (k : M A) :
  (when c then usage w (Some msg) ;; k) = if c then usage w (Some msg) else k.
Proof.
  destruct c; [reflexivity|]. apply (bind_ret_l tt (fun _ => k)).
Qed.

(** ** The option loop *)

Section OptionLoopFacts.

Variable w : world.

Ltac plain_option :=
  left; eexists; split; [reflexivity | split; reflexivity].

Ltac checked_option :=
  rewrite when_usage;
  match goal with
  | |- context [if ?c then usage _ _ else _] =>
      destruct c;
      [ right; left; eexists; reflexivity | plain_option ]
  end.

(** What one turn of the loop does: it goes on, with the operation and
    the level the option character selects, or it ends the process in
    [usage] or [version]. *)
Lemma option_case_result (o : gopt) (s : locals) :
  (exists s',
      option_case w o s = ret s'
      /\ op s' = from_option (op s) (mode_flag (ch o))
      /\ level s' = from_option (level s) (level_flag (ch o)))
  \/ (exists msg, option_case w o s = usage w (Some msg))
  \/ option_case w o s = usage w None
  \/ option_case w o s = version w.
Proof.
  destruct o as [c a]. destruct c as [b0 b1 b2 b3 b4 b5 b6 b7].
  destruct b0, b1, b2, b3, b4, b5, b6, b7;
    cbn [option_case ch optarg];
    first
      [ plain_option
      | right; left; exists ""%string; reflexivity
      | right; right; left; reflexivity
      | right; right; right; reflexivity
      | destruct (strtol a) as [optint optend]; checked_option
      | destruct (strtod w a) as [optdbl optend]; checked_option ].
Qed.

Lemma option_case_mode_or_level (o : gopt) (s : locals) :
  is_some (mode_flag (ch o)) || is_some (level_flag (ch o)) = true ->
  exists s', option_case w o s = ret s'.
Proof.
  destruct o as [c a]. destruct c as [b0 b1 b2 b3 b4 b5 b6 b7].
  destruct b0, b1, b2, b3, b4, b5, b6, b7;
    cbn [option_case ch optarg]; intros H;
    first [ eexists; reflexivity | cbv in H; discriminate H ].
Qed.

(** Whether a turn of the loop goes on does not depend on what the
    earlier options set. *)
Lemma option_case_goes_on (o : gopt) (s1 s2 : locals) :
  (exists s', option_case w o s1 = ret s') ->
  exists s', option_case w o s2 = ret s'.
Proof.
  destruct o as [c a]. destruct c as [b0 b1 b2 b3 b4 b5 b6 b7].
  destruct b0, b1, b2, b3, b4, b5, b6, b7;
    cbn [option_case ch optarg]; intros [s' H];
    first
      [ eexists; reflexivity
      | discriminate H
      | destruct (strtol a) as [optint optend];
        rewrite when_usage in *;
        match goal with
        | |- context [if ?c then usage _ _ else _] =>
            destruct c; [discriminate H | eexists; reflexivity]
        end
      | destruct (strtod w a) as [optdbl optend];
        rewrite when_usage in *;
        match goal with
        | |- context [if ?c then usage _ _ else _] =>
            destruct c; [discriminate H | eexists; reflexivity]
        end ].
Qed.

Lemma last_some_cons {X Y : Type} (f : X -> option Y) (x : X) (l : list X)
    (d : Y) :
  from_option d (last_some f (x :: l))
  = from_option (from_option d (f x)) (last_some f l).
Proof. cbn [last_some]. now destruct (last_some f l). Qed.

(** What the whole loop does. *)
Lemma option_loop_result (opts : list gopt) (s : locals) :
  (exists s',
      option_loop w opts s = ret s'
      /\ op s' = from_option (op s) (last_some mode_flag (map ch opts))
      /\ level s'
         = from_option (level s) (last_some level_flag (map ch opts)))
  \/ (exists msg, option_loop w opts s = usage w (Some msg))
  \/ option_loop w opts s = usage w None
  \/ option_loop w opts s = version w.
Proof.
  revert s. induction opts as [|o rest IH]; intros s.
  - left. exists s. repeat split.
  - cbn [option_loop map].
    destruct (option_case_result o s)
      as [[s1 [E [Ho Hl]]] | [[msg E] | [E | E]]]; rewrite E.
    + rewrite bind_ret_l.
      destruct (IH s1) as [[s' [E' [Ho' Hl']]] | [[msg E'] | [E' | E']]].
      * left. exists s'. rewrite !last_some_cons, <- Ho, <- Hl. auto.
      * right. left. now exists msg.
      * right. right. now left.
      * right. right. now right.
    + right. left. now exists msg.
    + right. right. now left.
    + right. right. now right.
Qed.

Lemma option_loop_app (a b : list gopt) (s : locals) :
  option_loop w (a ++ b) s
  = (s' <-- option_loop w a s ; option_loop w b s').
Proof.
  revert s. induction a as [|o a IH]; intros s.
  - cbn [app option_loop]. now rewrite bind_ret_l.
  - cbn [app option_loop].
    destruct (option_case_result o s)
      as [[s1 [E _]] | [[msg E] | [E | E]]]; rewrite E;
      [rewrite !bind_ret_l; apply IH | reflexivity ..].
Qed.

End OptionLoopFacts.

(** ** The numeric arguments *)

Section StrtolFacts.

Lemma read_digits_all (s : string) (acc : Z) (n : nat) :
  forallb isdigit (chars s) = true ->
  read_digits s acc n
  = (decimal_value s acc, (n + String.length s)%nat, EmptyString).
Proof.
  revert acc n. induction s as [|c s IH]; intros acc n H.
  - cbn. now rewrite Nat.add_0_r.
  - cbn [chars list_ascii_of_string forallb] in H.
    apply andb_prop in H as [Hc Hs]. fold (chars s) in Hs.
    cbn [read_digits decimal_value String.length]. rewrite Hc.
    rewrite (IH _ _ Hs). do 2 f_equal. lia.
Qed.

Lemma read_digits_stop (s : string) (acc : Z) (n : nat) :
  forallb isdigit (chars s) = false ->
  exists v n' c r,
    read_digits s acc n = (v, n', String c r)
    /\ isdigit c = false /\ In c (chars s).
Proof.
  revert acc n. induction s as [|c s IH]; intros acc n H.
  - discriminate H.
  - cbn [chars list_ascii_of_string forallb] in H. fold (chars s) in H.
    cbn [read_digits]. destruct (isdigit c) eqn:Hc.
    + cbn [andb] in H.
      destruct (IH (10 * acc + (code c - code "0")) (S n) H)
        as [v [n' [c' [r [E [Hd Hi]]]]]].
      exists v, n', c', r. split; [exact E|]. split; [exact Hd|].
      now right.
    + exists acc, n, c, s. split; [reflexivity|]. split; [exact Hc|].
      now left.
Qed.

Lemma skip_space_chars (a : string) (c : ascii) :
  In c (chars (skip_space a)) -> In c (chars a).
Proof.
  induction a as [|x a IH]; cbn [skip_space]; [tauto|].
  destruct (isspace x); [|tauto]. intros H. right. now apply IH.
Qed.

Lemma sign_split_chars (s : string) (c : ascii) :
  In c (chars (snd (sign_split s))) -> In c (chars s).
Proof.
  destruct s as [|x r]; [tauto|].
  destruct x as [b0 b1 b2 b3 b4 b5 b6 b7].
  destruct b0, b1, b2, b3, b4, b5, b6, b7; cbn; tauto.
Qed.

Lemma nonul_in (a : string) (c : ascii) :
  nonul a = true -> In c (chars a) -> is_nul c = false.
Proof.
  unfold nonul, no_nul. rewrite forallb_forall. intros H I.
  apply H in I. now apply negb_true_iff in I.
Qed.

Lemma clamp_long_sign (v : Z) : clamp_long v < 0 <-> v < 0.
Proof.
  unfold clamp_long, LONG_MIN, LONG_MAX.
  destruct (Z.ltb_spec v (- 2 ^ 63)); [lia|].
  destruct (Z.ltb_spec (2 ^ 63 - 1) v); lia.
Qed.

(** [strtol] on an integer literal gives its value, brought into the
    range of [long], and consumes the string. *)
Lemma strtol_literal (a : string) (v : Z) :
  integer_literal a = Some v -> strtol a = (clamp_long v, EmptyString).
Proof.
  unfold integer_literal, strtol.
  destruct (sign_split (skip_space a)) as [neg d].
  destruct (negb (d =? "")%string && forallb isdigit (chars d)) eqn:C;
    [|discriminate].
  apply andb_prop in C as [C1 C2]. intros [= <-].
  rewrite (read_digits_all d 0 0 C2).
  destruct d as [|c d]; [discriminate C1|]. reflexivity.
Qed.

(** On any other string without a NUL, [strtol] either converts nothing
    and leaves the end pointer at the start, or leaves it on a character
    of the string. *)
Lemma strtol_not_literal (a : string) :
  integer_literal a = None -> nonul a = true ->
  strtol a = (0, a)
  \/ exists v c r, strtol a = (v, String c r) /\ is_nul c = false.
Proof.
  unfold integer_literal, strtol. intros H Hn.
  pose proof (sign_split_chars (skip_space a)) as S1.
  destruct (sign_split (skip_space a)) as [neg d]. cbn [snd] in S1.
  destruct (forallb isdigit (chars d)) eqn:C2.
  - destruct d as [|c d]; [now left | discriminate H].
  - destruct (read_digits_stop d 0 0 C2) as [v [n' [c [r [E [Hd Hi]]]]]].
    rewrite E. destruct n' as [|n']; [now left|].
    right. eexists _, c, r. split; [reflexivity|].
    apply (nonul_in a c Hn). apply skip_space_chars. now apply S1.
Qed.

Lemma deref_nul_empty (a : string) :
  nonul a = true -> is_nul (deref a) = true <-> a = EmptyString.
Proof.
  intros Hn. destruct a as [|c a]; [split; reflexivity|].
  cbn [deref]. rewrite (nonul_in _ c Hn) by now left.
  split; discriminate.
Qed.

End StrtolFacts.

Section NumericFlags.

Variable w : world.

(** X10.  The argument of -p is accepted exactly when it is an integer
    literal (white space, an optional sign, digits) that is not negative,
    or the empty string. *)
Lemma thread_bound_accepted_iff (a : string) (s : locals) :
  nonul a = true ->
  (exists s', option_case w (mkopt "p" a) s = ret s')
  <-> a = EmptyString \/ exists v, integer_literal a = Some v /\ 0 <= v.
Proof.
  intros Hn. cbn [option_case ch optarg].
  destruct (integer_literal a) as [v|] eqn:L.
  - rewrite (strtol_literal a v L), when_usage. cbn [deref].
    replace (is_nul NUL) with true by reflexivity. cbn [negb].
    rewrite orb_false_r.
    assert (a <> EmptyString) by (intros ->; discriminate L).
    destruct (Z.ltb_spec (clamp_long v) 0) as [N | N];
      rewrite clamp_long_sign in N || rewrite <- Z.nlt_ge, clamp_long_sign in N.
    + rewrite usage_some. split; [intros [s' X]; discriminate X|].
      intros [X | [v' [[= <-] X]]]; [contradiction | lia].
    + split; [|eauto]. intros _. right. exists v. split; [reflexivity|lia].
  - destruct (strtol_not_literal a L Hn) as [E | [v [c [r [E Hc]]]]];
      rewrite E, when_usage.
    + cbn [Z.ltb Z.compare orb].
      destruct (is_nul (deref a)) eqn:D; cbn [negb].
      * apply (deref_nul_empty a Hn) in D. split; [now left | eauto].
      * rewrite usage_some. split; [intros [s' X]; discriminate X|].
        intros [X | [v' [X _]]]; [|discriminate X].
        apply (deref_nul_empty a Hn) in X. congruence.
    + cbn [deref]. rewrite Hc. cbn [negb]. rewrite orb_true_r, usage_some.
      split; [intros [s' X]; discriminate X|].
      intros [X | [v' [X _]]]; [|discriminate X].
      subst a. discriminate E.
Qed.

(** X11.  The argument of -q is accepted exactly when it is an integer
    literal (white space, an optional sign, digits) that is positive. *)
Lemma queue_bound_accepted_iff (a : string) (s : locals) :
  nonul a = true ->
  (exists s', option_case w (mkopt "q" a) s = ret s')
  <-> exists v, integer_literal a = Some v /\ 0 < v.
Proof.
  intros Hn. cbn [option_case ch optarg].
  destruct (integer_literal a) as [v|] eqn:L.
  - rewrite (strtol_literal a v L), when_usage. cbn [deref].
    replace (is_nul NUL) with true by reflexivity. cbn [negb].
    rewrite orb_false_r.
    assert (P : clamp_long v <= 0 <-> v <= 0).
    { unfold clamp_long, LONG_MIN, LONG_MAX.
      destruct (Z.ltb_spec v (- 2 ^ 63)); [lia|].
      destruct (Z.ltb_spec (2 ^ 63 - 1) v); lia. }
    destruct (Z.leb_spec (clamp_long v) 0) as [N | N].
    + rewrite usage_some. split; [intros [s' X]; discriminate X|].
      intros [v' [[= <-] X]]. lia.
    + split; [|eauto]. intros _. exists v. split; [reflexivity|lia].
  - split; [|intros [v [X _]]; discriminate X].
    intros [s' X]. exfalso.
    destruct (strtol_not_literal a L Hn) as [E | [v [c [r [E Hc]]]]];
      rewrite E, when_usage in X.
    + cbn [Z.leb Z.compare orb] in X. rewrite usage_some in X.
      discriminate X.
    + cbn [deref] in X. rewrite Hc in X. cbn [negb] in X.
      rewrite orb_true_r, usage_some in X. discriminate X.
Qed.

End NumericFlags.

(** ** The stages of [main] *)

Section StageFacts.

Variable w : world.

Lemma positional_result (args : list string) (s : locals) :
  (exists x, positional w args s = ret x)
  \/ (exists msg, positional w args s = usage w (Some msg))
  \/ positional w args s = halt Undefined.
Proof.
  unfold positional.
  destruct (negb (op_eqb (op s) OP_EXTRACT) && (1 <=? argc args));
    [|left; eauto].
  rewrite when_usage.
  destruct ((2 <? argc args) || (op_eqb (op s) OP_LIST && (argc args =? 2)));
    [right; left; eauto|].
  rewrite when_usage.
  destruct (is_some (ipath s)); [right; left; eauto|].
  destruct (argc args =? 2).
  - rewrite when_usage.
    destruct (is_some (opath (set_ipath (Some (argv args 0)) s)));
      [right; left; eauto | left; eauto].
  - cbn [op set_ipath].
    destruct (negb (op_eqb (op s) OP_LIST)); [|left; eauto].
    destruct (auto_output_arg w (op s) (argv args 0)) as [[o|]|]; cbn [lift].
    + rewrite bind_ret_l. left. eauto.
    + rewrite bind_ret_l. right. left. eauto.
    + right. right. reflexivity.
Qed.

Lemma open_streams_result (s : locals) :
  exists t,
    forallb is_setup t = true
    /\ (open_streams w s = (t, inl tt)
        \/ exists msg, open_streams w s = (t, inr (Died msg))).
Proof.
  unfold open_streams.
  destruct (ipath s) as [i|], (opath s) as [o|];
    try destruct (fopen_ok w i "r");
    try destruct (fopen_ok w o "w");
    try destruct (open_ok w o [O_CREAT; O_WRONLY]
                    match stat_st_mode w i with
                    | Some m => m
                    | None => unset_st_mode w
                    end);
    try destruct (fdopen_ok w o);
    cbn; eexists; (split; [|first [left; reflexivity
                                  | right; eexists; reflexivity]]);
    reflexivity.
Qed.

Lemma call_result (e : event) :
  (engine w e = None /\ call w e = ([e], inl tt))
  \/ (exists msg, engine w e = Some msg /\ call w e = ([e], inr (Died msg))).
Proof.
  unfold call. destruct (engine w e) as [msg|]; cbn.
  - right. eauto.
  - left. auto.
Qed.

Lemma dispatch_result (args : list string) (s : locals) :
  (exists pre e,
      forallb is_setup pre = true /\ is_engine_call e = true
      /\ ((engine w e = None /\ dispatch w args s = (pre ++ [e], inl tt))
          \/ (exists msg, engine w e = Some msg
                 /\ dispatch w args s = (pre ++ [e], inr (Died msg)))))
  \/ (exists msg,
        dispatch w args s
        = ([Ev_isatty_out; Ev_stderr (msg ++ nl ++ nl);
            Ev_stderr (usage_text (PACKAGE_VERSION w))], inr (Exit 2))).
Proof.
  assert (direct : forall e,
    is_engine_call e = true ->
    exists pre e0,
      forallb is_setup pre = true /\ is_engine_call e0 = true
      /\ ((engine w e0 = None /\ call w e = (pre ++ [e0], inl tt))
          \/ (exists msg, engine w e0 = Some msg
                 /\ call w e = (pre ++ [e0], inr (Died msg))))).
  { intros e He. exists [], e. split; [reflexivity|]. split; [exact He|].
    destruct (call_result e) as [[E1 E2] | [msg [E1 E2]]];
      [left | right; exists msg]; split; assumption. }
  unfold dispatch. destruct (op s); try (left; now apply direct).
  destruct (out_isatty w (opath s)).
  - right. eexists. reflexivity.
  - left. exists [Ev_isatty_out].
    match goal with
    | |- context [call w ?e] =>
        exists e; destruct (call_result e) as [[E1 E2] | [msg [E1 E2]]]
    end; (split; [reflexivity|]); (split; [reflexivity|]).
    + left. split; [exact E1|]. cbn [bind emit ret]. rewrite E2.
      reflexivity.
    + right. exists msg. split; [exact E1|]. cbn [bind emit ret].
      rewrite E2. reflexivity.
Qed.

End StageFacts.

(** ** The whole run *)

Section MainFacts.

Variable w : world.

Lemma bind_cons {A B : Type} (t : list event) (a : A) (f : A -> M B) :
  bind (t, inl a) f = (t ++ fst (f a), snd (f a)).
Proof. cbn [bind]. now destruct (f a). Qed.

(** Every run of [main] has one of the shapes of [ending]. *)
Lemma main_ending (opts : list gopt) (args : list string) :
  ending w (fst (main w opts args)) (snd (main w opts args)).
Proof.
  unfold main, main_body.
  destruct (option_loop_result w opts initial)
    as [[s [E _]] | [[msg E] | [E | E]]]; rewrite E.
  2: { rewrite usage_some. cbn. apply (End_usage w [] msg). reflexivity. }
  2: { rewrite usage_none. cbn. apply End_help. }
  2: { rewrite version_eq. cbn. apply End_version. }
  rewrite bind_ret_l.
  destruct (positional_result w args s) as [[[s' r] E2] | [[msg E2] | E2]];
    rewrite E2.
  2: { rewrite usage_some. cbn. apply (End_usage w [] msg). reflexivity. }
  2: { cbn. apply End_undefined. }
  rewrite bind_ret_l.
  destruct (open_streams_result w s') as [t1 [Q1 [E3 | [msg E3]]]];
    rewrite E3.
  2: { cbn. now apply End_open_failed. }
  rewrite bind_cons.
  destruct (dispatch_result w args s')
    as [[pre [e [Q2 [He [[En E4] | [msg [En E4]]]]]]] | [msg E4]];
    rewrite E4.
  - rewrite bind_cons. cbn [fst snd].
    destruct (r && negb (keep_input s')); cbn [bind emit ret fst snd app].
    + replace (t1 ++ (pre ++ [e]) ++ [Ev_unlink (from_path (ipath s'))])
        with ((t1 ++ pre) ++ e :: [Ev_unlink (from_path (ipath s'))])
        by (now rewrite <- !app_assoc).
      apply End_done; eauto.
      rewrite forallb_app, Q1, Q2. reflexivity.
    + rewrite app_nil_r, app_assoc.
      apply End_done; auto.
      rewrite forallb_app, Q1, Q2. reflexivity.
  - cbn [bind fst snd]. rewrite app_assoc.
    apply End_engine_died; auto.
    rewrite forallb_app, Q1, Q2. reflexivity.
  - cbn [bind fst snd].
    change (t1 ++ [Ev_isatty_out; Ev_stderr (msg ++ nl ++ nl);
                   Ev_stderr (usage_text (PACKAGE_VERSION w))])
      with (t1 ++ [Ev_isatty_out] ++ [Ev_stderr (msg ++ nl ++ nl);
                   Ev_stderr (usage_text (PACKAGE_VERSION w))]).
    rewrite app_assoc. apply End_usage.
    rewrite forallb_app, Q1. reflexivity.
Qed.

End MainFacts.

(** ** Exit codes *)

Section ExitFacts.

Variable w : world.

Lemma last_event_snoc (t : list event) (e : event) :
  last_event (t ++ [e]) = Some e.
Proof. unfold last_event. now rewrite rev_app_distr. Qed.

Lemma last_event_snoc2 (t : list event) (e e' : event) :
  last_event (t ++ [e; e']) = Some e'.
Proof. unfold last_event. now rewrite rev_app_distr. Qed.

Lemma last_event_setup (t : list event) (e : event) :
  forallb is_setup t = true -> last_event t = Some e -> is_setup e = true.
Proof.
  intros F L. rewrite forallb_forall in F. apply F.
  unfold last_event in L. apply in_rev.
  destruct (rev t) as [|x r]; [discriminate|].
  injection L as ->. now left.
Qed.

Lemma usage_error_last (t : list event) :
  usage_error_reported w t ->
  last_event t = Some (Ev_stderr (usage_text (PACKAGE_VERSION w)))
  /\ (2 <= List.length t)%nat.
Proof.
  intros [pre [msg ->]]. split; [apply last_event_snoc2|].
  rewrite length_app. cbn [List.length]. lia.
Qed.

Lemma completed_last (t : list event) :
  completed w t ->
  exists e, last_event t = Some e
            /\ ((is_engine_call e = true /\ engine w e = None)
                \/ exists p, e = Ev_unlink p).
Proof.
  intros [pre [e [He [En [-> | [p ->]]]]]].
  - exists e. split; [apply last_event_snoc | left; auto].
  - exists (Ev_unlink p). split; [apply last_event_snoc2 | right; eauto].
Qed.

(** The exit code of each shape of run. *)
Lemma ending_exit_code (t : list event) (o : outcome) :
  ending w t o ->
  (help_shown w t \/ version_shown w t \/ completed w t -> o = Exit 0)
  /\ (usage_error_reported w t -> o = Exit 2)
  /\ (forall c, o = Exit c ->
        (c = 0 /\ (help_shown w t \/ version_shown w t \/ completed w t))
        \/ (c = 2 /\ usage_error_reported w t)).
Proof.
  intros E. destruct E as [pre msg Q| | |pre e rest Q He En R|t msg Q
                            |pre e msg Q He En|].
  - (* a usage error *)
    split; [|split].
    + intros [H | [H | H]]; exfalso.
      * unfold help_shown in H. apply (f_equal (@List.length event)) in H.
        rewrite length_app in H. cbn [List.length] in H. lia.
      * unfold version_shown in H.
        apply (f_equal (@List.length event)) in H.
        rewrite length_app in H. cbn [List.length] in H. lia.
      * apply completed_last in H as [e [L H]].
        rewrite last_event_snoc2 in L. injection L as <-.
        destruct H as [[H _] | [p H]]; discriminate.
    + reflexivity.
    + intros c [= <-]. right. split; [reflexivity|]. now exists pre, msg.
  - (* help *)
    split; [|split].
    + reflexivity.
    + intros H. apply usage_error_last in H as [_ H].
      cbn [List.length] in H. lia.
    + intros c [= <-]. left. split; [reflexivity|]. now left.
  - (* version *)
    split; [|split].
    + reflexivity.
    + intros H. apply usage_error_last in H as [_ H].
      cbn [List.length] in H. lia.
    + intros c [= <-]. left. split; [reflexivity|]. right. now left.
  - (* the engine returned *)
    assert (C : completed w (pre ++ e :: rest)).
    { exists pre, e. split; [exact He|]. split; [exact En|].
      destruct R as [-> | [p ->]]; [now left | right; now exists p]. }
    split; [|split].
    + reflexivity.
    + intros H. exfalso. apply usage_error_last in H as [L _].
      destruct R as [-> | [p ->]].
      * rewrite last_event_snoc in L. injection L as ->. discriminate.
      * rewrite last_event_snoc2 in L. discriminate.
    + intros c [= <-]. left. split; [reflexivity|]. right. now right.
  - (* a stream could not be opened *)
    split; [|split].
    + intros [H | [H | H]]; exfalso.
      * rewrite H in Q. discriminate.
      * rewrite H in Q. discriminate.
      * apply completed_last in H as [e [L H]].
        apply (last_event_setup _ _ Q) in L.
        destruct H as [[H _] | [p ->]]; [|discriminate].
        destruct e; discriminate.
    + intros H. exfalso. apply usage_error_last in H as [L _].
      apply (last_event_setup _ _ Q) in L. discriminate.
    + intros c [=].
  - (* the engine ended the process *)
    split; [|split].
    + intros [H | [H | H]]; exfalso.
      * unfold help_shown in H.
        apply (f_equal last_event) in H. rewrite last_event_snoc in H.
        injection H as ->. discriminate.
      * unfold version_shown in H.
        apply (f_equal last_event) in H. rewrite last_event_snoc in H.
        injection H as ->. discriminate.
      * apply completed_last in H as [e' [L H]].
        rewrite last_event_snoc in L. injection L as <-.
        destruct H as [[_ H] | [p ->]]; [congruence | discriminate].
    + intros H. exfalso. apply usage_error_last in H as [L _].
      rewrite last_event_snoc in L. injection L as ->. discriminate.
    + intros c [=].
  - (* a library call without a result *)
    split; [|split].
    + intros [H | [H | H]]; exfalso; try discriminate.
      apply completed_last in H as [e [L _]]. discriminate.
    + intros H. apply usage_error_last in H as [L _]. discriminate.
    + intros c [=].
Qed.

End ExitFacts.

(** * The claims *)

Section Claims.

Variable w : world.

(** The loop reaches its end exactly when every option, taken alone, is
    accepted: no combination of options is an error. *)
Lemma option_loop_goes_on_iff (opts : list gopt) (s : locals) :
  (exists s', option_loop w opts s = ret s')
  <-> Forall (fun o => exists s', option_case w o initial = ret s') opts.
Proof.
  revert s. induction opts as [|o rest IH]; intros s.
  - split; [constructor | now exists s].
  - cbn [option_loop]. split.
    + intros [s' H].
      destruct (option_case_result w o s)
        as [[s1 [E _]] | [[msg E] | [E | E]]]; rewrite E in H;
        try discriminate H.
      rewrite bind_ret_l in H. constructor.
      * apply (option_case_goes_on w o s). now exists s1.
      * apply (IH s1). now exists s'.
    + intros F. inversion F as [|o' rest' Ho Hrest]; subst.
      destruct (option_case_goes_on w o initial s Ho) as [s1 E].
      rewrite E, bind_ret_l. now apply IH.
Qed.

Lemma option_loop_inl (opts : list gopt) (s : locals) (t : list event)
    (s' : locals) :
  option_loop w opts s = (t, inl s') ->
  t = []
  /\ op s' = from_option (op s) (last_some mode_flag (map ch opts))
  /\ level s' = from_option (level s) (last_some level_flag (map ch opts)).
Proof.
  intros H.
  destruct (option_loop_result w opts s)
    as [[s1 [E [Ho Hl]]] | [[msg E] | [E | E]]];
    rewrite E in H; try discriminate H.
  injection H as <- <-. auto.
Qed.

(** C9.  Several of the operation flags -d, -x, -l in one argument list
    raise no error: each of them, and each digit flag, is accepted
    whatever came before, and the loop reaches its end exactly when every
    option taken alone is accepted.  The operation is then the one of the
    last operation flag (Write when there is none), and in the same way
    the compression level is the one of the last digit flag (the default
    when there is none). *)
Theorem last_flag_wins (opts : list gopt) :
  (forall o s,
      is_some (mode_flag (ch o)) || is_some (level_flag (ch o)) = true ->
      exists s', option_case w o s = ret s')
  /\ ((exists s, option_loop w opts initial = ret s)
      <-> Forall (fun o => exists s', option_case w o initial = ret s') opts)
  /\ (forall t s,
        option_loop w opts initial = (t, inl s) ->
        op s = from_option OP_WRITE (last_some mode_flag (map ch opts))
        /\ level s = from_option LZMA_PRESET_DEFAULT
                       (last_some level_flag (map ch opts))).
Proof.
  split; [|split].
  - intros o s H. now apply option_case_mode_or_level.
  - apply option_loop_goes_on_iff.
  - intros t s H. apply option_loop_inl in H as [_ H]. exact H.
Qed.

Lemma when_false {A : Type} (m : M unit) (k : M A) :
  (when false then m ;; k) = k.
Proof. apply (bind_ret_l tt (fun _ => k)). Qed.

Lemma positional_extract (args : list string) (s : locals) :
  op s = OP_EXTRACT -> positional w args s = ret (s, false).
Proof. intros H. unfold positional. rewrite H. reflexivity. Qed.

Lemma main_body_extract (opts : list gopt) (args : list string)
    (s : locals) :
  option_loop w opts initial = ret s -> op s = OP_EXTRACT ->
  main_body w opts args
  = (open_streams w s ;; call w (Ev_pixz_read (tar s) args) ;; ret 0).
Proof.
  intros H Hop. unfold main_body.
  rewrite H, bind_ret_l, (positional_extract args s Hop), bind_ret_l.
  unfold dispatch. rewrite Hop. cbn [andb].
  f_equal.
Qed.

(** C5.  In Extract mode the remaining arguments, whatever their number,
    are not taken as paths and raise no error: the streams opened are
    those of the -i and -o flags alone, nothing is written to the
    diagnostic stream, and the one call into the engine is the read entry
    point with exactly these arguments as member names. *)
Theorem extract_arguments_are_members (opts : list gopt)
    (args : list string) (s : locals) :
  option_loop w opts initial = ret s ->
  op s = OP_EXTRACT ->
  positional w args s = ret (s, false)
  /\ main_body w opts args
     = (open_streams w s ;; call w (Ev_pixz_read (tar s) args) ;; ret 0)
  /\ (forall text, ~ In (Ev_stderr text) (fst (main w opts args)))
  /\ (forall e, In e (fst (main w opts args)) -> is_engine_call e = true ->
        e = Ev_pixz_read (tar s) args)
  /\ (forall t, open_streams w s = (t, inl tt) ->
        fst (main w opts args) = t ++ [Ev_pixz_read (tar s) args]).
Proof.
  intros H Hop.
  pose proof (main_body_extract opts args s H Hop) as E.
  split; [now apply positional_extract|]. split; [exact E|].
  assert (T : exists t,
             forallb is_setup t = true
             /\ ((exists msg, open_streams w s = (t, inr (Died msg)))
                 \/ (open_streams w s = (t, inl tt)
                     /\ fst (main w opts args)
                        = t ++ [Ev_pixz_read (tar s) args]))
             /\ (fst (main w opts args) = t
                 \/ fst (main w opts args)
                    = t ++ [Ev_pixz_read (tar s) args])).
  { unfold main. rewrite E.
    destruct (open_streams_result w s) as [t [Q [E1 | [msg E1]]]];
      rewrite E1; exists t; (split; [exact Q|]).
    - rewrite bind_cons.
      assert (F : fst (call w (Ev_pixz_read (tar s) args) ;; ret 0)
                  = [Ev_pixz_read (tar s) args]).
      { destruct (call_result w (Ev_pixz_read (tar s) args))
          as [[_ E2] | [msg [_ E2]]]; rewrite E2; reflexivity. }
      destruct (snd (call w (Ev_pixz_read (tar s) args) ;; ret 0));
        cbn [fst]; rewrite F; split; right; auto.
    - split; [left; now exists msg | left; reflexivity]. }
  destruct T as [t [Q [T1 T2]]]. rewrite forallb_forall in Q.
  split; [|split].
  - intros text I.
    destruct T2 as [T | T]; rewrite T in I.
    + apply Q in I. discriminate.
    + apply in_app_or in I as [I | [I | []]];
        [apply Q in I|]; discriminate.
  - intros e I He.
    destruct T2 as [T | T]; rewrite T in I.
    + apply Q in I. destruct e; discriminate.
    + apply in_app_or in I as [I | [I | []]]; [|now symmetry].
      apply Q in I. destruct e; discriminate.
  - intros t' E1. destruct T1 as [[msg T] | [E1' T]].
    + rewrite E1 in T. discriminate.
    + rewrite E1 in E1'. injection E1' as ->. exact T.
Qed.

Lemma dispatch_no_creation (args : list string) (s : locals) :
  forallb (fun e => negb (creates e)) (fst (dispatch w args s)) = true.
Proof.
  unfold dispatch, call.
  destruct (op s); try destruct (out_isatty w (opath s));
    match goal with
    | |- context [engine w ?e] => destruct (engine w e)
    | _ => idtac
    end; reflexivity.
Qed.

Lemma open_streams_named (s : locals) (i o : string) (m : Z) :
  ipath s = Some i -> opath s = Some o ->
  fopen_ok w i "r" = true -> stat_st_mode w i = Some m ->
  open_streams w s
  = (emit (Ev_fopen i "r") ;; emit (Ev_stat i) ;;
     emit (Ev_open o [O_CREAT; O_WRONLY] m) ;;
     when (negb (open_ok w o [O_CREAT; O_WRONLY] m)) then
       die ("can not open output file: " ++ o ++ ": "
            ++ strerror_errno w o) ;;
     emit (Ev_fdopen o "w") ;;
     when (negb (fdopen_ok w o)) then
       die ("can not open output file: " ++ o ++ ": "
            ++ strerror_errno w o)).
Proof.
  intros Hi Ho Hf Hm. unfold open_streams. rewrite Hi, Ho, Hf, Hm.
  reflexivity.
Qed.

Lemma land_lnot_disjoint (a u : Z) :
  Z.land a u = 0 -> Z.land a (Z.lnot u) = a.
Proof.
  intros H. apply Z.bits_inj'. intros n Hn.
  rewrite Z.land_spec, Z.lnot_spec by exact Hn.
  apply (f_equal (fun z => Z.testbit z n)) in H.
  rewrite Z.land_spec, Z.bits_0 in H.
  destruct (Z.testbit a n), (Z.testbit u n); cbn in *; congruence.
Qed.

Lemma land_lnot_within (a u : Z) :
  Z.land (Z.land a (Z.lnot u)) (Z.lnot a) = 0.
Proof.
  apply Z.bits_inj'. intros n Hn.
  rewrite !Z.land_spec, !Z.lnot_spec, Z.bits_0 by exact Hn.
  destruct (Z.testbit a n), (Z.testbit u n); reflexivity.
Qed.

(** C4, amended.  When the input is a named file whose mode [stat] can
    read and there is an output path, the process opens the input, then
    asks for the mode of the input file with [stat], then opens the
    output with [open(O_CREAT|O_WRONLY)] and exactly the mode [stat]
    reported; no other call of the run creates a file.  A file this call
    creates gets the permission bits of the input less the bits set in
    the mask of the process: never a bit the input has not, and exactly
    the bits of the input when the mask holds none of them.  An output
    file that is already there keeps its mode. *)
Theorem output_opened_with_input_mode (opts : list gopt)
    (args : list string) (s0 s : locals) (r : bool) (i o : string) (m : Z) :
  option_loop w opts initial = ret s0 ->
  positional w args s0 = ret (s, r) ->
  ipath s = Some i -> opath s = Some o ->
  fopen_ok w i "r" = true ->
  stat_st_mode w i = Some m ->
  (exists rest,
      fst (main w opts args)
      = [Ev_fopen i "r"; Ev_stat i; Ev_open o [O_CREAT; O_WRONLY] m] ++ rest
      /\ forallb (fun e => negb (creates e)) rest = true)
  /\ (existing_mode w o = None ->
      mode_after_open w o m = Z.land (permission_bits m) (Z.lnot (umask w))
      /\ Z.land (mode_after_open w o m) (Z.lnot (permission_bits m)) = 0
      /\ (Z.land (permission_bits m) (umask w) = 0 ->
          mode_after_open w o m = permission_bits m))
  /\ (forall old, existing_mode w o = Some old ->
        mode_after_open w o m = old).
Proof.
  intros H1 H2 Hi Ho Hf Hm. split; [|split].
  - unfold main, main_body.
    rewrite H1, bind_ret_l, H2, bind_ret_l.
    rewrite (open_streams_named s i o m Hi Ho Hf Hm).
    pose proof (dispatch_no_creation args s) as D.
    destruct (dispatch w args s) as [td [[]|od]]; cbn [fst] in D.
    + destruct (open_ok w o [O_CREAT; O_WRONLY] m), (fdopen_ok w o),
        (r && negb (keep_input s));
        cbn; eexists; (split; [reflexivity|]); cbn;
        rewrite ?forallb_app, ?D; reflexivity.
    + destruct (open_ok w o [O_CREAT; O_WRONLY] m), (fdopen_ok w o);
        cbn; eexists; (split; [reflexivity|]); cbn;
        rewrite ?forallb_app, ?D; reflexivity.
  - intros He. unfold mode_after_open. rewrite He.
    split; [reflexivity|]. split; [apply land_lnot_within|].
    apply land_lnot_disjoint.
  - intros old He. unfold mode_after_open. now rewrite He.
Qed.

Lemma positional_single (name : string) (s : locals) :
  op s = OP_READ \/ op s = OP_WRITE ->
  ipath s = None ->
  positional w [name] s
  = (r <-- lift (auto_output_arg w (op s) name) ;
     match r with
     | None => usage w (Some "Unknown suffix")
     | Some o => ret (set_opath (Some o) (set_ipath (Some name) s), true)
     end).
Proof.
  intros Hop Hi. unfold positional. rewrite Hi.
  change (argc [name]) with 1. change (argv [name] 0) with name.
  cbn [op set_ipath].
  destruct Hop as [Hop | Hop]; rewrite Hop;
    cbn [op_eqb negb andb orb Z.leb Z.ltb Z.eqb Z.compare Pos.compare
         Pos.compare_cont is_some];
    rewrite !bind_ret_l; reflexivity.
Qed.

(** With one remaining argument and no -i, in Read or Write mode, the
    output name is the one the table of the specification gives, and a
    name the table has no rule for is a usage error. *)
Lemma positional_derives (name : string) (s : locals) :
  op s = OP_READ \/ op s = OP_WRITE ->
  ipath s = None ->
  nonul name = true ->
  Z.of_nat (String.length name) + 6 < size_max ->
  positional w [name] s
  = match resolve suffix_table (op s) name with
    | Some o => ret (set_opath (Some o) (set_ipath (Some name) s), true)
    | None => usage w (Some "Unknown suffix")
    end.
Proof.
  intros Hop Hi Hn Hsz. rewrite positional_single by assumption.
  rewrite (auto_output_arg_resolve w (op s) name Hn Hsz). cbn [lift].
  rewrite bind_ret_l. reflexivity.
Qed.

(** Whether a turn of the loop ends in a usage error, and with which
    message, does not depend on what the earlier options set. *)
Lemma option_case_rejects_always (o : gopt) (s1 s2 : locals) (msg : string) :
  option_case w o s1 = usage w (Some msg) ->
  option_case w o s2 = usage w (Some msg).
Proof.
  destruct o as [c a]. destruct c as [b0 b1 b2 b3 b4 b5 b6 b7].
  destruct b0, b1, b2, b3, b4, b5, b6, b7;
    cbn [option_case ch optarg]; intros H;
    first
      [ exact H
      | discriminate H
      | destruct (strtol a) as [optint optend];
        rewrite when_usage in *;
        match goal with
        | |- context [if ?c then usage _ _ else _] =>
            destruct c; [exact H | discriminate H]
        end
      | destruct (strtod w a) as [optdbl optend];
        rewrite when_usage in *;
        match goal with
        | |- context [if ?c then usage _ _ else _] =>
            destruct c; [exact H | discriminate H]
        end ].
Qed.

(** The first option that is not accepted decides the run. *)
Lemma main_at_option (pre rest : list gopt) (o : gopt)
    (args : list string) (x : list event) (e : outcome) :
  Forall (fun o => exists s', option_case w o initial = ret s') pre ->
  (forall s, option_case w o s = (x, inr e)) ->
  main w (pre ++ o :: rest) args = (x, e).
Proof.
  intros F H.
  apply (option_loop_goes_on_iff pre initial) in F as [s1 E].
  unfold main, main_body. rewrite option_loop_app, E, bind_ret_l.
  cbn [option_loop]. rewrite (H s1). reflexivity.
Qed.

Lemma thread_bound_rejected (a : string) (s : locals) :
  nonul a = true -> a <> EmptyString ->
  (integer_literal a = None
   \/ exists v, integer_literal a = Some v /\ v < 0) ->
  option_case w (mkopt "p" a) s
  = usage w (Some "Need a non-negative integer argument to -p").
Proof.
  intros Hn Ha H. cbn [option_case ch optarg].
  destruct H as [L | [v [L N]]].
  - destruct (strtol_not_literal a L Hn) as [E | [v [c [r [E Hc]]]]];
      rewrite E, when_usage.
    + destruct (is_nul (deref a)) eqn:D.
      * apply (deref_nul_empty a Hn) in D. contradiction.
      * reflexivity.
    + cbn [deref]. rewrite Hc. cbn [negb]. now rewrite orb_true_r.
  - rewrite (strtol_literal a v L), when_usage.
    replace (clamp_long v <? 0) with true; [reflexivity|].
    symmetry. apply Z.ltb_lt. now apply clamp_long_sign.
Qed.

Lemma queue_bound_rejected (a : string) (s : locals) :
  nonul a = true ->
  (integer_literal a = None
   \/ exists v, integer_literal a = Some v /\ v <= 0) ->
  option_case w (mkopt "q" a) s
  = usage w (Some "Need a positive integer argument to -q").
Proof.
  intros Hn H. cbn [option_case ch optarg].
  destruct H as [L | [v [L N]]].
  - destruct (strtol_not_literal a L Hn) as [E | [v [c [r [E Hc]]]]];
      rewrite E, when_usage.
    + reflexivity.
    + cbn [deref]. rewrite Hc. cbn [negb]. now rewrite orb_true_r.
  - rewrite (strtol_literal a v L), when_usage.
    replace (clamp_long v <=? 0) with true; [reflexivity|].
    symmetry. apply Z.leb_le. unfold clamp_long, LONG_MIN, LONG_MAX.
    destruct (Z.ltb_spec v (- 2 ^ 63)); [lia|].
    destruct (Z.ltb_spec (2 ^ 63 - 1) v); lia.
Qed.

Lemma block_fraction_rejected (a : string) (s : locals) :
  negb (is_nul (deref (snd (strtod w a)))) || dle0 (fst (strtod w a)) = true ->
  option_case w (mkopt "f" a) s
  = usage w (Some "Need a positive floating-point argument to -f").
Proof.
  intros H. cbn [option_case ch optarg].
  destruct (strtod w a) as [optdbl optend]. cbn [fst snd] in H.
  rewrite when_usage, H. reflexivity.
Qed.

(** The errors of the block that reads the remaining arguments. *)
Lemma positional_errors (args : list string) (s : locals) :
  op s <> OP_EXTRACT ->
  (2 < argc args \/ (op s = OP_LIST /\ argc args = 2) ->
   positional w args s = usage w (Some "Too many arguments"))
  /\ (1 <= argc args <= 2 -> (op s = OP_LIST -> argc args = 1) ->
      ipath s <> None ->
      positional w args s = usage w (Some "Multiple input files specified"))
  /\ (argc args = 2 -> op s <> OP_LIST ->
      ipath s = None -> opath s <> None ->
      positional w args s
      = usage w (Some "Multiple output files specified")).
Proof.
  intros Hop.
  assert (X : negb (op_eqb (op s) OP_EXTRACT) = true)
    by (destruct (op s); try reflexivity; now elim Hop).
  unfold positional. rewrite X. cbn [andb]. split; [|split].
  - intros H.
    replace (1 <=? argc args) with true by (symmetry; apply Z.leb_le; lia).
    rewrite when_usage.
    replace ((2 <? argc args)
             || (op_eqb (op s) OP_LIST && (argc args =? 2))) with true;
      [reflexivity|].
    symmetry. apply orb_true_iff. destruct H as [H | [H1 H2]].
    + left. now apply Z.ltb_lt.
    + right. rewrite H1, H2. reflexivity.
  - intros Ha Hl Hi.
    replace (1 <=? argc args) with true by (symmetry; apply Z.leb_le; lia).
    rewrite when_usage.
    replace ((2 <? argc args)
             || (op_eqb (op s) OP_LIST && (argc args =? 2))) with false.
    + rewrite when_usage. destruct (ipath s); [reflexivity | now elim Hi].
    + symmetry. apply orb_false_iff. split; [apply Z.ltb_ge; lia|].
      destruct (op s); try reflexivity. cbn [op_eqb andb].
      apply Z.eqb_neq. specialize (Hl eq_refl). lia.
  - intros Ha Hl Hi Ho. rewrite Ha.
    replace (op_eqb (op s) OP_LIST) with false
      by (destruct (op s); try reflexivity; now elim Hl).
    cbn [Z.leb Z.ltb Z.eqb Z.compare Pos.compare Pos.compare_cont Pos.eqb
         andb orb].
    rewrite when_usage, Hi. cbn [is_some]. rewrite when_usage.
    cbn [opath set_ipath]. destruct (opath s); [reflexivity | now elim Ho].
Qed.

Lemma main_at_positional (opts : list gopt) (args : list string)
    (s : locals) (msg : string) :
  option_loop w opts initial = ret s ->
  positional w args s = usage w (Some msg) ->
  main w opts args = usage_error_run w msg.
Proof.
  intros H1 H2. unfold main, main_body. rewrite H1, bind_ret_l, H2.
  reflexivity.
Qed.

Lemma not_completed_setup (t : list event) :
  forallb is_setup t = true -> ~ completed w t.
Proof.
  intros Q C. apply completed_last in C as [e [L C]].
  apply (last_event_setup _ _ Q) in L.
  destruct C as [[C _] | [p ->]]; [|discriminate].
  destruct e; discriminate.
Qed.

(** C6.  The exit code is 0 for the help text, for the version line and
    when the engine returned, and 2 for every usage error, and a run that
    ends in [exit] or by returning from [main] ends in no other way.
    In detail, for [main] as a whole: once the options before it are
    accepted, -h and -V end the run with 0; a flag [getopt] rejects, any
    option the loop rejects, and a malformed argument of -p, -q or -f
    end it with 2; when the options are accepted, too many arguments,
    a second input or output path and a name with no known suffix end it
    with 2; when the streams are open, the refusal to write to a
    terminal ends it with 2, and otherwise, when the engine returns, the
    run is complete and ends with 0. *)
Theorem exit_code_of_main (opts : list gopt) (args : list string) :
  (help_shown w (fst (main w opts args))
   \/ version_shown w (fst (main w opts args))
   \/ completed w (fst (main w opts args)) ->
   snd (main w opts args) = Exit 0)
  /\ (usage_error_reported w (fst (main w opts args)) ->
      snd (main w opts args) = Exit 2)
  /\ (forall c, snd (main w opts args) = Exit c ->
        (c = 0 /\ (help_shown w (fst (main w opts args))
                   \/ version_shown w (fst (main w opts args))
                   \/ completed w (fst (main w opts args))))
        \/ (c = 2 /\ usage_error_reported w (fst (main w opts args))))
  /\ (forall pre a rest,
        opts = pre ++ mkopt "h" a :: rest ->
        Forall (fun o => exists s', option_case w o initial = ret s') pre ->
        main w opts args
        = ([Ev_stderr (usage_text (PACKAGE_VERSION w))], Exit 0))
  /\ (forall pre a rest,
        opts = pre ++ mkopt "V" a :: rest ->
        Forall (fun o => exists s', option_case w o initial = ret s') pre ->
        main w opts args
        = ([Ev_stderr ("pixz " ++ PACKAGE_VERSION w ++ nl)], Exit 0))
  /\ (forall pre a rest,
        opts = pre ++ mkopt "?" a :: rest ->
        Forall (fun o => exists s', option_case w o initial = ret s') pre ->
        main w opts args = usage_error_run w "")
  /\ (forall pre o rest msg,
        opts = pre ++ o :: rest ->
        Forall (fun o => exists s', option_case w o initial = ret s') pre ->
        option_case w o initial = usage w (Some msg) ->
        main w opts args = usage_error_run w msg)
  /\ (forall pre a rest,
        opts = pre ++ mkopt "p" a :: rest ->
        Forall (fun o => exists s', option_case w o initial = ret s') pre ->
        nonul a = true -> a <> EmptyString ->
        (integer_literal a = None
         \/ exists v, integer_literal a = Some v /\ v < 0) ->
        main w opts args
        = usage_error_run w "Need a non-negative integer argument to -p")
  /\ (forall pre a rest,
        opts = pre ++ mkopt "q" a :: rest ->
        Forall (fun o => exists s', option_case w o initial = ret s') pre ->
        nonul a = true ->
        (integer_literal a = None
         \/ exists v, integer_literal a = Some v /\ v <= 0) ->
        main w opts args
        = usage_error_run w "Need a positive integer argument to -q")
  /\ (forall pre a rest,
        opts = pre ++ mkopt "f" a :: rest ->
        Forall (fun o => exists s', option_case w o initial = ret s') pre ->
        negb (is_nul (deref (snd (strtod w a))))
        || dle0 (fst (strtod w a)) = true ->
        main w opts args
        = usage_error_run w "Need a positive floating-point argument to -f")
  /\ (forall s,
        option_loop w opts initial = ret s -> op s <> OP_EXTRACT ->
        2 < argc args \/ (op s = OP_LIST /\ argc args = 2) ->
        main w opts args = usage_error_run w "Too many arguments")
  /\ (forall s,
        option_loop w opts initial = ret s -> op s <> OP_EXTRACT ->
        1 <= argc args <= 2 -> (op s = OP_LIST -> argc args = 1) ->
        ipath s <> None ->
        main w opts args
        = usage_error_run w "Multiple input files specified")
  /\ (forall s,
        option_loop w opts initial = ret s -> op s <> OP_EXTRACT ->
        argc args = 2 -> op s <> OP_LIST ->
        ipath s = None -> opath s <> None ->
        main w opts args
        = usage_error_run w "Multiple output files specified")
  /\ (forall s name,
        option_loop w opts initial = ret s -> op s = OP_READ ->
        ipath s = None -> args = [name] ->
        nonul name = true ->
        Z.of_nat (String.length name) + 6 < size_max ->
        ends_with name ".tar.xz" = false ->
        ends_with name ".tpxz" = false ->
        ends_with name ".xz" = false ->
        main w opts args = usage_error_run w "Unknown suffix")
  /\ (forall s0 s r t1,
        option_loop w opts initial = ret s0 ->
        positional w args s0 = ret (s, r) ->
        open_streams w s = (t1, inl tt) ->
        op s = OP_WRITE -> out_isatty w (opath s) = true ->
        main w opts args
        = (t1 ++ [Ev_isatty_out;
                  Ev_stderr ("Refusing to output to a TTY" ++ nl ++ nl);
                  Ev_stderr (usage_text (PACKAGE_VERSION w))], Exit 2))
  /\ (forall s0 s r t1,
        option_loop w opts initial = ret s0 ->
        positional w args s0 = ret (s, r) ->
        open_streams w s = (t1, inl tt) ->
        (op s = OP_WRITE -> out_isatty w (opath s) = false) ->
        (forall e, is_engine_call e = true -> engine w e = None) ->
        snd (main w opts args) = Exit 0
        /\ completed w (fst (main w opts args))).
Proof.
  destruct (ending_exit_code w _ _ (main_ending w opts args))
    as [E1 [E2 E3]].
  split; [exact E1|]. split; [exact E2|]. split; [exact E3|].
  clear E1 E2 E3.
  repeat match goal with |- _ /\ _ => split end.
  - intros pre a rest -> F. now apply main_at_option.
  - intros pre a rest -> F. now apply main_at_option.
  - intros pre a rest -> F. now apply main_at_option.
  - intros pre o rest msg -> F H. apply main_at_option; [exact F|].
    intros s. now rewrite (option_case_rejects_always o initial s msg H).
  - intros pre a rest -> F Hn Ha H. apply main_at_option; [exact F|].
    intros s. now rewrite (thread_bound_rejected a s Hn Ha H).
  - intros pre a rest -> F Hn H. apply main_at_option; [exact F|].
    intros s. now rewrite (queue_bound_rejected a s Hn H).
  - intros pre a rest -> F H. apply main_at_option; [exact F|].
    intros s. now rewrite (block_fraction_rejected a s H).
  - intros s H1 Hop H. apply (main_at_positional opts args s _ H1).
    now apply (positional_errors args s Hop).
  - intros s H1 Hop Ha Hl Hi. apply (main_at_positional opts args s _ H1).
    now apply (positional_errors args s Hop).
  - intros s H1 Hop Ha Hl Hi Ho.
    apply (main_at_positional opts args s _ H1).
    now apply (positional_errors args s Hop).
  - intros s name H1 Hop Hi -> Hn Hsz X1 X2 X3.
    apply (main_at_positional opts [name] s _ H1).
    rewrite positional_derives by auto. rewrite Hop.
    unfold suffix_table. cbn [resolve op_eqb andb].
    now rewrite X1, X2, X3.
  - intros s0 s r t1 H1 H2 H3 Hop Ht. unfold main, main_body.
    rewrite H1, bind_ret_l, H2, bind_ret_l, H3, bind_cons.
    unfold dispatch. rewrite Hop, Ht. reflexivity.
  - intros s0 s r t1 H1 H2 H3 Ht He.
    assert (C : snd (main w opts args) = Exit 0
                /\ exists pre e,
                     is_engine_call e = true
                     /\ fst (main w opts args)
                        = pre ++ e :: (if r && negb (keep_input s)
                                       then [Ev_unlink (from_path (ipath s))]
                                       else [])).
    { unfold main, main_body.
      rewrite H1, bind_ret_l, H2, bind_ret_l, H3, bind_cons.
      unfold dispatch, call.
      destruct (op s) eqn:Hop.
      - rewrite (Ht eq_refl).
        match goal with
        | |- context [engine w ?e] =>
            rewrite (He e eq_refl); split;
            [|exists (t1 ++ [Ev_isatty_out]), e; split; [reflexivity|]]
        end;
          destruct (r && negb (keep_input s)); cbn; try reflexivity;
          now rewrite <- app_assoc.
      - match goal with
        | |- context [engine w ?e] =>
            rewrite (He e eq_refl); split;
            [|exists t1, e; split; [reflexivity|]]
        end;
          destruct (r && negb (keep_input s)); cbn; reflexivity.
      - match goal with
        | |- context [engine w ?e] =>
            rewrite (He e eq_refl); split;
            [|exists t1, e; split; [reflexivity|]]
        end;
          destruct (r && negb (keep_input s)); cbn; reflexivity.
      - match goal with
        | |- context [engine w ?e] =>
            rewrite (He e eq_refl); split;
            [|exists t1, e; split; [reflexivity|]]
        end;
          destruct (r && negb (keep_input s)); cbn; reflexivity. }
    destruct C as [C1 [pre [e [Ce C2]]]]. split; [exact C1|].
    rewrite C2. exists pre, e. split; [exact Ce|].
    split; [now apply He|].
    destruct (r && negb (keep_input s)); [right; eauto | now left].
Qed.

(** When the block that reads the remaining arguments goes on, [iremove]
    is set exactly when the output name was derived from the single
    remaining argument, and the output path is then the derived one. *)
Lemma positional_iremove (args : list string) (s0 s : locals) (r : bool) :
  positional w args s0 = ret (s, r) ->
  keep_input s = keep_input s0
  /\ (r = true <->
      (op s0 = OP_READ \/ op s0 = OP_WRITE) /\ argc args = 1)
  /\ (r = true ->
      ipath s = Some (argv args 0)
      /\ auto_output_arg w (op s0) (argv args 0) = Ok (opath s)
      /\ opath s <> None).
Proof.
  unfold positional. intros H.
  destruct (negb (op_eqb (op s0) OP_EXTRACT) && (1 <=? argc args)) eqn:C0.
  2: { injection H as <- <-. split; [reflexivity|]. split.
       - split; [discriminate|]. intros [Hop Ha]. rewrite Ha in C0.
         destruct Hop as [Hop | Hop]; rewrite Hop in C0; discriminate.
       - discriminate. }
  apply andb_prop in C0 as [C0 C1]. apply Z.leb_le in C1.
  rewrite when_usage in H.
  destruct ((2 <? argc args) || (op_eqb (op s0) OP_LIST && (argc args =? 2)))
    eqn:C2; [rewrite usage_some in H; discriminate|].
  apply orb_false_elim in C2 as [C2 C3]. apply Z.ltb_ge in C2.
  rewrite when_usage in H.
  destruct (is_some (ipath s0));
    [rewrite usage_some in H; discriminate|].
  destruct (argc args =? 2) eqn:C4.
  - apply Z.eqb_eq in C4. rewrite when_usage in H.
    destruct (is_some (opath (set_ipath (Some (argv args 0)) s0)));
      [rewrite usage_some in H; discriminate|].
    injection H as <- <-. split; [reflexivity|]. split.
    + split; [discriminate|]. intros [_ Ha]. lia.
    + discriminate.
  - apply Z.eqb_neq in C4. cbn [op set_ipath] in H.
    destruct (op s0) eqn:Hop; cbn [op_eqb negb] in H; try discriminate C0.
    + (* OP_WRITE *)
      destruct (auto_output_arg w OP_WRITE (argv args 0)) as [[o|]|];
        cbn [lift] in H; try rewrite bind_ret_l in H;
        try (rewrite usage_some in H); try discriminate H.
      injection H as <- <-. split; [reflexivity|]. split.
      * split; [intros _; split; [now right | lia] | reflexivity].
      * intros _. repeat split. discriminate.
    + (* OP_READ *)
      destruct (auto_output_arg w OP_READ (argv args 0)) as [[o|]|];
        cbn [lift] in H; try rewrite bind_ret_l in H;
        try (rewrite usage_some in H); try discriminate H.
      injection H as <- <-. split; [reflexivity|]. split.
      * split; [intros _; split; [now left | lia] | reflexivity].
      * intros _. repeat split. discriminate.
    + (* OP_LIST *)
      injection H as <- <-. split; [reflexivity|]. split.
      * split; [discriminate|]. intros [[X | X] _]; discriminate X.
      * discriminate.
Qed.

(** On a run in which the engine returned, [unlink] is called exactly
    when [iremove] is set and [keep_input] is not. *)
Lemma unlink_iff_iremove (opts : list gopt) (args : list string)
    (s0 s : locals) (r : bool) :
  option_loop w opts initial = ret s0 ->
  positional w args s0 = ret (s, r) ->
  completed w (fst (main w opts args)) ->
  (exists p, In (Ev_unlink p) (fst (main w opts args)))
  <-> r = true /\ keep_input s = false.
Proof.
  intros H1 H2. unfold main, main_body.
  rewrite H1, bind_ret_l, H2, bind_ret_l.
  destruct (open_streams_result w s) as [t1 [Q1 [E3 | [msg E3]]]];
    rewrite E3.
  2: { cbn. intros C. exfalso. apply completed_last in C as [e [L C]].
       apply (last_event_setup _ _ Q1) in L.
       destruct C as [[C _] | [p ->]]; [|discriminate].
       destruct e; discriminate. }
  rewrite bind_cons.
  rewrite forallb_forall in Q1.
  destruct (dispatch_result w args s)
    as [[pre [e [Q2 [He [[En E4] | [msg [En E4]]]]]]] | [msg E4]];
    rewrite E4.
  - rewrite forallb_forall in Q2. rewrite bind_cons. intros _.
    assert (N : forall p t2,
               (forall x, In x t2 -> x = e) ->
               ~ In (Ev_unlink p) (t1 ++ (pre ++ [e]) ++ t2)).
    { intros p t2 X I.
      apply in_app_or in I as [I | I]; [apply Q1 in I; discriminate|].
      apply in_app_or in I as [I | I].
      - apply in_app_or in I as [I | [I | []]];
          [apply Q2 in I; discriminate | subst e; discriminate He].
      - apply X in I. subst e. discriminate He. }
    destruct r, (keep_input s); cbn [andb negb bind emit ret fst snd app];
      split.
    all: try (intros [_ X]; discriminate X).
    all: try (intros [X _]; discriminate X).
    all: try (intros _; split; reflexivity).
    all: try (intros [p I]; exfalso; revert I; apply N; intros x []).
    intros _. exists (from_path (ipath s)).
    apply in_or_app. right. apply in_or_app. right. now left.
  - cbn [bind fst snd]. intros C. exfalso.
    apply completed_last in C as [e' [L C]].
    rewrite app_assoc, last_event_snoc in L. injection L as <-.
    destruct C as [[_ C] | [p ->]]; [congruence | discriminate].
  - cbn [bind fst snd]. intros C. exfalso.
    apply completed_last in C as [e' [L C]].
    change (t1 ++ [Ev_isatty_out; Ev_stderr (msg ++ nl ++ nl);
                   Ev_stderr (usage_text (PACKAGE_VERSION w))])
      with (t1 ++ [Ev_isatty_out] ++ [Ev_stderr (msg ++ nl ++ nl);
                   Ev_stderr (usage_text (PACKAGE_VERSION w))]) in L.
    rewrite app_assoc, last_event_snoc2 in L. injection L as <-.
    destruct C as [[C _] | [p C]]; discriminate.
Qed.

(** C1.  With the output path given by -o and a single remaining argument
    the run is the one without -o: the given path is not used, the output
    name is derived from the input name, and the input is removed.  In the
    sample environment, [pixz -o out.xz notes.txt] writes [notes.txt.xz]
    and removes [notes.txt]. *)
Theorem output_flag_overridden (out inp : string) :
  main w [mkopt "o" out] [inp] = main w [] [inp]
  /\ main calm [mkopt "o" "out.xz"] ["notes.txt"]
     = ([Ev_fopen "notes.txt" "r"; Ev_stat "notes.txt";
         Ev_open "notes.txt.xz" [O_CREAT; O_WRONLY] (Z.lor S_IFREG mode_0644);
         Ev_fdopen "notes.txt.xz" "w"; Ev_isatty_out;
         Ev_pixz_write true 6; Ev_unlink "notes.txt"], Exit 0).
Proof.
  split; [|vm_compute; reflexivity].
  unfold main, main_body. cbn [option_loop option_case ch optarg].
  rewrite !bind_ret_l, !positional_single by (try right; reflexivity).
  cbn [op set_opath initial].
  destruct (auto_output_arg w OP_WRITE inp) as [[o|]|]; reflexivity.
Qed.

(** C7.  The empty string is no integer literal, and yet as the argument
    of -p it is accepted: the loop goes on with the thread bound 0 and no
    usage error; in the sample environment [pixz -p ""] runs the engine
    and exits with 0. *)
Theorem empty_thread_bound_accepted (s : locals) :
  integer_literal "" = None
  /\ option_case w (mkopt "p" "") s = ret (set_gPipelineProcessMax 0 s)
  /\ main calm [mkopt "p" ""] []
     = ([Ev_isatty_out; Ev_pixz_write true 6], Exit 0).
Proof.
  split; [reflexivity|]. split; [reflexivity | vm_compute; reflexivity].
Qed.

End Claims.

(** C8.  The suffix test reads outside its first argument exactly when the
    second is the longer: then, and only then, it has no defined
    result. *)
Theorem strsuf_reads_outside (big small : string) :
  nonul big = true -> nonul small = true ->
  strsuf (ptr_of big) (ptr_of small) = Undef
  <-> (String.length big < String.length small)%nat.
Proof.
  intros Hb Hs. rewrite (strsuf_ptr_of big small Hb Hs).
  destruct (Nat.leb_spec (String.length small) (String.length big));
    split; intros X; try discriminate; try reflexivity; try lia.
Qed.

Lemma strsuf_reads_outside_witness :
  nonul "a" = true /\ nonul ".tar.xz" = true
  /\ (String.length "a" < String.length ".tar.xz")%nat
  /\ strsuf (ptr_of "a") (ptr_of ".tar.xz") = Undef.
Proof.
  assert (L : (String.length "a" < String.length ".tar.xz")%nat)
    by (cbn; lia).
  split; [reflexivity|]. split; [reflexivity|]. split; [exact L|].
  exact (proj2 (strsuf_reads_outside "a" ".tar.xz" eq_refl eq_refl) L).
Defined.

(** C2.  In Read mode, on the name [main] hands over, the resolver tries
    [.tar.xz], then [.tpxz], then [.xz], takes the first of them the name
    ends with, removes it and appends [.tar] for the first two and
    nothing for the third, whatever the length of the name.  When the
    name ends with none of the three the resolver gives NULL, and the
    run ends with the message [Unknown suffix], the usage text and exit
    code 2; when it ends with one of them the run goes on with the
    derived name as output path. *)
Theorem read_resolution_follows_table (w : world) (name : string) :
  nonul name = true ->
  Z.of_nat (String.length name) + 6 < size_max ->
  auto_output_arg w OP_READ name
  = Ok (if ends_with name ".tar.xz"
        then Some (strip name ".tar.xz" ++ ".tar")%string
        else if ends_with name ".tpxz"
        then Some (strip name ".tpxz" ++ ".tar")%string
        else if ends_with name ".xz"
        then Some (strip name ".xz")
        else None)
  /\ (forall opts s,
        option_loop w opts initial = ret s ->
        op s = OP_READ -> ipath s = None ->
        ends_with name ".tar.xz" = false ->
        ends_with name ".tpxz" = false ->
        ends_with name ".xz" = false ->
        main w opts [name] = usage_error_run w "Unknown suffix")
  /\ (forall opts s out,
        option_loop w opts initial = ret s ->
        op s = OP_READ -> ipath s = None ->
        auto_output_arg w OP_READ name = Ok (Some out) ->
        positional w [name] s
        = ret (set_opath (Some out) (set_ipath (Some name) s), true)).
Proof.
  intros Hn Hsz.
  assert (R : auto_output_arg w OP_READ name
              = Ok (if ends_with name ".tar.xz"
                    then Some (strip name ".tar.xz" ++ ".tar")%string
                    else if ends_with name ".tpxz"
                    then Some (strip name ".tpxz" ++ ".tar")%string
                    else if ends_with name ".xz"
                    then Some (strip name ".xz")
                    else None)).
  { rewrite (auto_output_arg_resolve w OP_READ name Hn Hsz).
    unfold suffix_table. cbn [resolve op_eqb andb].
    now rewrite append_empty. }
  split; [exact R|]. split.
  - intros opts s H1 Hop Hi X1 X2 X3.
    unfold main, main_body. rewrite H1, bind_ret_l.
    rewrite positional_single by auto.
    rewrite Hop, R, X1, X2, X3. reflexivity.
  - intros opts s out H1 Hop Hi Ha.
    rewrite positional_single by auto.
    rewrite Hop, Ha. cbn [lift]. now rewrite bind_ret_l.
Qed.

Lemma read_resolution_follows_table_witness :
  nonul "a.xz" = true
  /\ Z.of_nat (String.length "a.xz") + 6 < size_max
  /\ auto_output_arg calm OP_READ "a.xz" = Ok (Some "a").
Proof.
  assert (Hsz : Z.of_nat (String.length "a.xz") + 6 < size_max)
    by (unfold size_max; cbn; lia).
  split; [reflexivity|]. split; [exact Hsz|].
  exact (proj1 (read_resolution_follows_table calm "a.xz" eq_refl Hsz)).
Defined.

(** C3.  In Write mode, on the name [main] hands over, the resolver
    never gives NULL, whatever the length of the name: a name that ends
    in [.tar] gets [.tpxz] in its place, and any other name gets [.xz]
    appended; the run goes on with that name as output path. *)
Theorem write_resolution_never_fails (w : world) (name : string) :
  nonul name = true ->
  Z.of_nat (String.length name) + 6 < size_max ->
  auto_output_arg w OP_WRITE name
  = Ok (Some (if ends_with name ".tar"
              then strip name ".tar" ++ ".tpxz"
              else name ++ ".xz")%string)
  /\ (forall opts s,
        option_loop w opts initial = ret s ->
        op s = OP_WRITE -> ipath s = None ->
        positional w [name] s
        = ret (set_opath
                 (Some (if ends_with name ".tar"
                        then strip name ".tar" ++ ".tpxz"
                        else name ++ ".xz")%string)
                 (set_ipath (Some name) s), true)).
Proof.
  intros Hn Hsz.
  assert (R : auto_output_arg w OP_WRITE name
              = Ok (Some (if ends_with name ".tar"
                          then strip name ".tar" ++ ".tpxz"
                          else name ++ ".xz")%string)).
  { rewrite (auto_output_arg_resolve w OP_WRITE name Hn Hsz).
    unfold suffix_table. cbn [resolve op_eqb andb].
    rewrite ends_with_empty, strip_empty.
    now destruct (ends_with name ".tar"). }
  split; [exact R|].
  intros opts s H1 Hop Hi.
  rewrite positional_single by auto.
  rewrite Hop, R. cbn [lift]. now rewrite bind_ret_l.
Qed.

Lemma write_resolution_never_fails_witness :
  nonul "a" = true
  /\ Z.of_nat (String.length "a") + 6 < size_max
  /\ auto_output_arg calm OP_WRITE "a" = Ok (Some "a.xz").
Proof.
  assert (Hsz : Z.of_nat (String.length "a") + 6 < size_max)
    by (unfold size_max; cbn; lia).
  split; [reflexivity|]. split; [exact Hsz|].
  exact (proj1 (write_resolution_never_fails calm "a" eq_refl Hsz)).
Defined.

(** ** Instances *)

Lemma extract_arguments_are_members_witness :
  option_loop calm [mkopt "x" ""] initial = ret (set_op OP_EXTRACT initial)
  /\ op (set_op OP_EXTRACT initial) = OP_EXTRACT
  /\ fst (main calm [mkopt "x" ""] ["a"; "b"; "c"])
     = [Ev_pixz_read true ["a"; "b"; "c"]].
Proof.
  split; [reflexivity|]. split; [reflexivity|].
  exact (proj2 (proj2 (proj2 (proj2
           (extract_arguments_are_members calm [mkopt "x" ""]
              ["a"; "b"; "c"] (set_op OP_EXTRACT initial)
              eq_refl eq_refl))))
           [] eq_refl).
Defined.

Lemma output_opened_with_input_mode_witness :
  option_loop calm [] initial = ret initial
  /\ positional calm ["notes.txt"] initial
     = ret (set_opath (Some "notes.txt.xz")
              (set_ipath (Some "notes.txt") initial), true)
  /\ fopen_ok calm "notes.txt" "r" = true
  /\ stat_st_mode calm "notes.txt" = Some (Z.lor S_IFREG mode_0644)
  /\ permission_bits (Z.lor S_IFREG mode_0644) = mode_0644
  /\ (exists rest,
        fst (main calm [] ["notes.txt"])
        = [Ev_fopen "notes.txt" "r"; Ev_stat "notes.txt";
           Ev_open "notes.txt.xz" [O_CREAT; O_WRONLY]
                   (Z.lor S_IFREG mode_0644)] ++ rest
        /\ forallb (fun e => negb (creates e)) rest = true)
  /\ mode_after_open calm "notes.txt.xz" (Z.lor S_IFREG mode_0644)
     = mode_0644.
Proof.
  split; [reflexivity|]. split; [reflexivity|]. split; [reflexivity|].
  split; [reflexivity|]. split; [reflexivity|].
  destruct (output_opened_with_input_mode calm [] ["notes.txt"] initial
              (set_opath (Some "notes.txt.xz")
                 (set_ipath (Some "notes.txt") initial))
              true "notes.txt" "notes.txt.xz" (Z.lor S_IFREG mode_0644)
              eq_refl eq_refl eq_refl eq_refl eq_refl eq_refl)
    as [T [C _]].
  split; [exact T|].
  exact (proj2 (proj2 (C eq_refl)) eq_refl).
Defined.

(** C4, as the specification has it, fails: under the mask 077 the run
    [pixz notes.txt] on an input with mode 0644 opens the output with
    the mode of the input, and the file created has mode 0600. *)
Lemma output_mode_under_mask :
  main strict [] ["notes.txt"]
  = ([Ev_fopen "notes.txt" "r"; Ev_stat "notes.txt";
      Ev_open "notes.txt.xz" [O_CREAT; O_WRONLY] (Z.lor S_IFREG mode_0644);
      Ev_fdopen "notes.txt.xz" "w"; Ev_isatty_out;
      Ev_pixz_write true 6; Ev_unlink "notes.txt"], Exit 0)
  /\ permission_bits (Z.lor S_IFREG mode_0644) = mode_0644
  /\ mode_after_open strict "notes.txt.xz" (Z.lor S_IFREG mode_0644)
     = mode_0600
  /\ ~ output_has_input_bits strict.
Proof.
  split; [reflexivity|]. split; [reflexivity|]. split; [reflexivity|].
  intros H.
  specialize (H [] ["notes.txt"] initial
                (set_opath (Some "notes.txt.xz")
                   (set_ipath (Some "notes.txt") initial))
                true "notes.txt" "notes.txt.xz" (Z.lor S_IFREG mode_0644)
                eq_refl eq_refl eq_refl eq_refl eq_refl eq_refl eq_refl).
  discriminate H.
Qed.

(** The scenarios of the specification. *)

Example resolve_archive :
  auto_output_arg calm OP_READ "archive.tar.xz" = Ok (Some "archive.tar").
Proof. reflexivity. Qed.

Example resolve_data :
  auto_output_arg calm OP_READ "data.tpxz" = Ok (Some "data.tar").
Proof. reflexivity. Qed.

Example resolve_notes :
  auto_output_arg calm OP_READ "notes.txt" = Ok None
  /\ snd (main calm [mkopt "d" ""] ["notes.txt"]) = Exit 2.
Proof. split; reflexivity. Qed.

Example resolve_project :
  auto_output_arg calm OP_WRITE "project.tar" = Ok (Some "project.tpxz").
Proof. reflexivity. Qed.

Example resolve_readme :
  auto_output_arg calm OP_WRITE "readme" = Ok (Some "readme.xz").
Proof. reflexivity. Qed.

Example both_flags_and_argument :
  fst (main calm [mkopt "i" "a"; mkopt "o" "b"] ["c"])
  = [Ev_stderr ("Multiple input files specified" ++ nl ++ nl);
     Ev_stderr (usage_text (PACKAGE_VERSION calm))]
  /\ snd (main calm [mkopt "i" "a"; mkopt "o" "b"] ["c"]) = Exit 2.
Proof. split; reflexivity. Qed.

Example list_two_arguments :
  fst (main calm [mkopt "l" ""] ["a"; "b"])
  = [Ev_stderr ("Too many arguments" ++ nl ++ nl);
     Ev_stderr (usage_text (PACKAGE_VERSION calm))]
  /\ snd (main calm [mkopt "l" ""] ["a"; "b"]) = Exit 2.
Proof. split; reflexivity. Qed.

Example keep_input_kept :
  main calm [mkopt "k" ""] ["notes.txt"]
  = ([Ev_fopen "notes.txt" "r"; Ev_stat "notes.txt";
      Ev_open "notes.txt.xz" [O_CREAT; O_WRONLY] (Z.lor S_IFREG mode_0644);
      Ev_fdopen "notes.txt.xz" "w"; Ev_isatty_out;
      Ev_pixz_write true 6], Exit 0).
Proof. reflexivity. Qed.

Example queue_bound_empty_rejected :
  snd (main calm [mkopt "q" ""] []) = Exit 2.
Proof. reflexivity. Qed.

Example thread_bound_negative_rejected :
  snd (main calm [mkopt "p" "-1"] []) = Exit 2.
Proof. reflexivity. Qed.

Example thread_bound_trailing_rejected :
  snd (main calm [mkopt "p" "4x"] []) = Exit 2.
Proof. reflexivity. Qed.

Example block_fraction_nan_accepted :
  main calm [mkopt "f" "nan"] []
  = ([Ev_isatty_out; Ev_pixz_write true 6], Exit 0).
Proof. reflexivity. Qed.

Example short_name_runs :
  main calm [mkopt "d" ""] ["a.xz"]
  = ([Ev_fopen "a.xz" "r"; Ev_stat "a.xz";
      Ev_open "a" [O_CREAT; O_WRONLY] (Z.lor S_IFREG mode_0644);
      Ev_fdopen "a" "w"; Ev_pixz_read true [];
      Ev_unlink "a.xz"], Exit 0)
  /\ main calm [] ["a"]
     = ([Ev_fopen "a" "r"; Ev_stat "a";
         Ev_open "a.xz" [O_CREAT; O_WRONLY] (Z.lor S_IFREG mode_0644);
         Ev_fdopen "a.xz" "w"; Ev_isatty_out;
         Ev_pixz_write true 6; Ev_unlink "a"], Exit 0)
  /\ main calm [mkopt "d" ""] ["abc.tar.xz"]
     = ([Ev_fopen "abc.tar.xz" "r"; Ev_stat "abc.tar.xz";
         Ev_open "abc.tar" [O_CREAT; O_WRONLY] (Z.lor S_IFREG mode_0644);
         Ev_fdopen "abc.tar" "w"; Ev_pixz_read true [];
         Ev_unlink "abc.tar.xz"], Exit 0).
Proof. repeat split. Qed.

Example bare_suffix_run :
  main calm [mkopt "d" ""] [".xz"]
  = ([Ev_fopen ".xz" "r"; Ev_stat ".xz";
      Ev_open "" [O_CREAT; O_WRONLY] (Z.lor S_IFREG mode_0644);
      Ev_fdopen "" "w"; Ev_pixz_read true [];
      Ev_unlink ".xz"], Exit 0).
Proof. reflexivity. Qed.

Example existing_output_keeps_mode :
  mode_after_open occupied "notes.txt.xz" (Z.lor S_IFREG mode_0644)
  = mode_0600
  /\ ~ output_has_input_bits occupied.
Proof.
  split; [reflexivity|]. intros H.
  specialize (H [] ["notes.txt"] initial
                (set_opath (Some "notes.txt.xz")
                   (set_ipath (Some "notes.txt") initial))
                true "notes.txt" "notes.txt.xz" (Z.lor S_IFREG mode_0644)
                eq_refl eq_refl eq_refl eq_refl eq_refl eq_refl eq_refl).
  discriminate H.
Qed.

Example exit_codes :
  snd (main calm [mkopt "h" ""] []) = Exit 0
  /\ snd (main calm [mkopt "V" ""] []) = Exit 0
  /\ snd (main calm [] []) = Exit 0
  /\ snd (main calm [mkopt "?" ""] []) = Exit 2
  /\ snd (main calm [mkopt "p" "-1"] []) = Exit 2
  /\ snd (main calm [] ["a"; "b"; "c"]) = Exit 2
  /\ snd (main calm [mkopt "d" ""] ["notes.txt"]) = Exit 2.
Proof. repeat split. Qed.

Example help_and_version :
  main calm [mkopt "d" ""; mkopt "h" ""; mkopt "?" ""] ["a"; "b"; "c"]
  = ([Ev_stderr (usage_text "1.0.7")], Exit 0)
  /\ main calm [mkopt "V" ""] []
     = ([Ev_stderr ("pixz 1.0.7" ++ nl)], Exit 0).
Proof. split; reflexivity. Qed.

(** * Further properties of the code *)

(** ** Strings *)

Section StringFacts.

Lemma length_append (a b : string) :
  String.length (a ++ b) = (String.length a + String.length b)%nat.
Proof.
  induction a as [|c a IH]; [reflexivity|]. cbn. now rewrite IH.
Qed.

Lemma ends_with_app (pre suf : string) : ends_with (pre ++ suf) suf = true.
Proof.
  induction pre as [|c pre IH]; cbn [append ends_with].
  - destruct suf; cbn [ends_with]; now rewrite String.eqb_refl.
  - rewrite IH. apply orb_true_r.
Qed.

Lemma strip_app (pre suf : string) : strip (pre ++ suf) suf = pre.
Proof.
  unfold strip. rewrite length_append.
  replace (String.length pre + String.length suf - String.length suf)%nat
    with (String.length pre) by lia.
  induction pre as [|c pre IH]; cbn [append String.length substring].
  - now destruct suf.
  - now rewrite IH.
Qed.

Lemma ends_with_split (name suf : string) :
  ends_with name suf = true -> name = (strip name suf ++ suf)%string.
Proof.
  intros H. apply chars_inj.
  pose proof (ends_with_length name suf H) as L.
  apply (ends_with_skipn name suf L) in H.
  unfold strip. rewrite chars_app, chars_substring0, <- H.
  symmetry. apply firstn_skipn.
Qed.

Lemma ends_with_iff (name suf : string) :
  ends_with name suf = true <-> exists pre, name = (pre ++ suf)%string.
Proof.
  split.
  - intros H. exists (strip name suf). now apply ends_with_split.
  - intros [pre ->]. apply ends_with_app.
Qed.

Lemma nonul_app (a b : string) :
  nonul (a ++ b) = nonul a && nonul b.
Proof. unfold nonul. rewrite chars_app. apply no_nul_app. Qed.

End StringFacts.



(** X2.  On a name that ends with the suffix to remove, [subsuf] gives a
    pointer to the start of a fresh array that holds the name without that
    suffix, followed by the suffix to append and the terminator, and
    nothing more: every cell it allocated is written. *)
Theorem subsuf_substitutes (pre suf1 suf2 : string) :
  nonul pre = true -> nonul suf1 = true -> nonul suf2 = true ->
  Z.of_nat (String.length pre) + Z.of_nat (String.length suf1)
    + Z.of_nat (String.length suf2) + 1 < size_max ->
  exists p,
    subsuf (ptr_of (pre ++ suf1)) (ptr_of suf1) (ptr_of suf2) = Ok (Some p)
    /\ ofs p = 0
    /\ blk p = array_of (pre ++ suf2)
    /\ List.length (blk p)
       = (String.length pre + String.length suf2 + 1)%nat
    /\ string_at p = Ok (pre ++ suf2)%string.
Proof.
  intros Hp H1 H2 Hsz.
  assert (Hn : nonul (pre ++ suf1) = true)
    by (rewrite nonul_app, Hp, H1; reflexivity).
  exists (ptr_of (pre ++ suf2)).
  rewrite (subsuf_ptr_of (pre ++ suf1) suf1 suf2 Hn H1 H2)
    by (rewrite length_append; lia).
  rewrite ends_with_app, strip_app, length_append.
  replace (String.length suf1 <=? String.length pre + String.length suf1)%nat
    with true by (symmetry; apply Nat.leb_le; lia).
  split; [reflexivity|]. split; [reflexivity|]. split; [reflexivity|].
  split.
  - cbn [ptr_of blk]. rewrite length_array_of, length_append. lia.
  - apply string_at_ptr_of. rewrite nonul_app, Hp, H2. reflexivity.
Qed.

Lemma subsuf_substitutes_witness :
  nonul "data" = true /\ nonul ".tpxz" = true /\ nonul ".tar" = true
  /\ exists p,
       subsuf (ptr_of "data.tpxz") (ptr_of ".tpxz") (ptr_of ".tar")
       = Ok (Some p)
       /\ string_at p = Ok "data.tar".
Proof.
  split; [reflexivity|]. split; [reflexivity|]. split; [reflexivity|].
  destruct (subsuf_substitutes "data" ".tpxz" ".tar" eq_refl eq_refl eq_refl)
    as [p [E [_ [_ [_ S]]]]].
  - unfold size_max. cbn. lia.
  - exists p. split; [exact E | exact S].
Defined.

(** ** The names the resolver derives *)

Section DerivedNames.

Lemma strip_length (name suf : string) :
  ends_with name suf = true ->
  String.length name
  = (String.length (strip name suf) + String.length suf)%nat.
Proof.
  intros H. rewrite (ends_with_split name suf H) at 1.
  apply length_append.
Qed.

Lemma append_assoc (a b c : string) :
  ((a ++ b) ++ c = a ++ (b ++ c))%string.
Proof.
  induction a as [|x a IH]; [reflexivity|]. cbn. now rewrite IH.
Qed.

Lemma append_cancel_r (a b s : string) :
  (a ++ s = b ++ s)%string -> a = b.
Proof.
  intros H. apply chars_inj. apply (f_equal chars) in H.
  rewrite !chars_app in H. now apply app_inv_tail in H.
Qed.

(** A suffix that follows the same tail can be tested without it. *)
Lemma ends_with_app_both (a t s : string) :
  ends_with (a ++ s) (t ++ s) = ends_with a t.
Proof.
  destruct (ends_with a t) eqn:E.
  - apply ends_with_iff in E as [pre ->]. apply ends_with_iff.
    exists pre. apply append_assoc.
  - destruct (ends_with (a ++ s) (t ++ s)) eqn:E'; [|reflexivity].
    apply ends_with_iff in E' as [pre E'].
    rewrite <- append_assoc in E'. apply append_cancel_r in E'.
    rewrite <- E. symmetry. apply ends_with_iff. now exists pre.
Qed.

(** Two strings whose last characters differ: neither ends with the
    other followed by anything. *)
Ltac last_chars_differ E :=
  apply ends_with_iff in E as [? E];
  apply (f_equal chars) in E; rewrite !chars_app in E;
  apply (f_equal (@rev ascii)) in E; rewrite !rev_app_distr in E;
  cbn in E; discriminate E.

Lemma xz_is_not_tpxz (a : string) : ends_with (a ++ ".xz") ".tpxz" = false.
Proof.
  destruct (ends_with (a ++ ".xz") ".tpxz") eqn:E; [|reflexivity].
  last_chars_differ E.
Qed.

Lemma tpxz_is_not_tar_xz (a : string) :
  ends_with (a ++ ".tpxz") ".tar.xz" = false.
Proof.
  destruct (ends_with (a ++ ".tpxz") ".tar.xz") eqn:E; [|reflexivity].
  last_chars_differ E.
Qed.

End DerivedNames.



(** X4.  Compressing and then decompressing gives the name back: on a
    name of four characters or more (six when it ends in [.tar]) the name
    derived in Write mode is one on which Read mode derives the original
    name. *)
Theorem write_then_read_name (name : string) :
  nonul name = true ->
  ((if ends_with name ".tar" then 6 else 4) <= String.length name)%nat ->
  Z.of_nat (String.length name) + 9 < size_max ->
  exists out,
    auto_output_str OP_WRITE name = Ok (Some out)
    /\ auto_output_str OP_READ out = Ok (Some name).
Proof.
  intros Hn L Hsz.
  assert (L4 : (4 <= String.length name)%nat)
    by (destruct (ends_with name ".tar"); lia).
  rewrite (auto_output_str_resolve OP_WRITE name Hn) by lia.
  cbn [longest_suffix].
  replace (4 <=? String.length name)%nat with true
    by (symmetry; now apply Nat.leb_le).
  unfold suffix_table. cbn [resolve op_eqb andb].
  destruct (ends_with name ".tar") eqn:E.
  - pose proof (ends_with_split name ".tar" E) as S.
    pose proof (strip_length name ".tar" E) as SL.
    cbn [String.length] in SL.
    set (base := strip name ".tar") in *.
    assert (Hb : nonul base = true).
    { rewrite S, nonul_app in Hn. now apply andb_prop in Hn as [Hn _]. }
    exists (base ++ ".tpxz")%string. split; [reflexivity|].
    rewrite auto_output_str_resolve;
      [| rewrite nonul_app, Hb; reflexivity
       | rewrite length_append; cbn [String.length]; lia].
    cbn [longest_suffix]. rewrite length_append. cbn [String.length].
    replace (7 <=? String.length base + 5)%nat with true
      by (symmetry; apply Nat.leb_le; lia).
    unfold suffix_table. cbn [resolve op_eqb andb].
    rewrite tpxz_is_not_tar_xz, ends_with_app, strip_app.
    now rewrite <- S.
  - rewrite ends_with_empty, strip_empty.
    exists (name ++ ".xz")%string. split; [reflexivity|].
    rewrite auto_output_str_resolve;
      [| rewrite nonul_app, Hn; reflexivity
       | rewrite length_append; cbn [String.length]; lia].
    cbn [longest_suffix]. rewrite length_append. cbn [String.length].
    replace (7 <=? String.length name + 3)%nat with true
      by (symmetry; apply Nat.leb_le; lia).
    unfold suffix_table. cbn [resolve op_eqb andb].
    change ".tar.xz"%string with (".tar" ++ ".xz")%string.
    rewrite ends_with_app_both, E, xz_is_not_tpxz, ends_with_app, strip_app.
    now rewrite append_empty.
Qed.

Lemma write_then_read_name_witness :
  nonul "readme.txt" = true
  /\ ((if ends_with "readme.txt" ".tar" then 6 else 4)
      <= String.length "readme.txt")%nat
  /\ exists out,
       auto_output_str OP_WRITE "readme.txt" = Ok (Some out)
       /\ auto_output_str OP_READ out = Ok (Some "readme.txt").
Proof.
  assert (L : ((if ends_with "readme.txt" ".tar" then 6 else 4)
               <= String.length "readme.txt")%nat) by (cbn; lia).
  split; [reflexivity|]. split; [exact L|].
  refine (write_then_read_name "readme.txt" eq_refl L _).
  unfold size_max. cbn. lia.
Defined.

Lemma read_resolution_long_name_witness :
  nonul "backup.tar.xz" = true /\ (7 <= String.length "backup.tar.xz")%nat
  /\ auto_output_str OP_READ "backup.tar.xz" = Ok (Some "backup.tar").
Proof.
  assert (L : (7 <= String.length "backup.tar.xz")%nat) by (cbn; lia).
  split; [reflexivity|]. split; [exact L|].
  refine (read_resolution_long_name "backup.tar.xz" eq_refl L _).
  unfold size_max. cbn. lia.
Defined.

Lemma write_resolution_long_name_witness :
  nonul "readme" = true /\ (4 <= String.length "readme")%nat
  /\ auto_output_str OP_WRITE "readme" = Ok (Some "readme.xz").
Proof.
  assert (L : (4 <= String.length "readme")%nat) by (cbn; lia).
  split; [reflexivity|]. split; [exact L|].
  refine (write_resolution_long_name "readme" eq_refl L _).
  unfold size_max. cbn. lia.
Defined.

(** ** What the options leave behind *)

Section OptionFields.

Variable w : world.

Ltac fields_done :=
  match goal with
  | H : _ = ret _ |- _ => injection H as <-
  end;
  cbn [tar keep_input extreme ipath opath level set_level set_tar
       set_keep_input set_extreme set_op set_ipath set_opath
       set_gBlockFraction set_gPipelineProcessMax set_gPipelineQSize];
  rewrite ?andb_true_r, ?andb_false_r, ?orb_false_r, ?orb_true_r;
  repeat split; try reflexivity; try lia.

(** One turn of the loop, field by field. *)
Lemma option_case_fields (o : gopt) (s s' : locals) :
  option_case w o s = ret s' ->
  tar s' = tar s && negb (Ascii.eqb (ch o) "t")
  /\ keep_input s' = keep_input s || Ascii.eqb (ch o) "k"
  /\ extreme s' = extreme s || Ascii.eqb (ch o) "e"
  /\ ipath s'
     = (if Ascii.eqb (ch o) "i" then Some (optarg o) else ipath s)
  /\ opath s'
     = (if Ascii.eqb (ch o) "o" then Some (optarg o) else opath s)
  /\ (0 <= level s <= 9 -> 0 <= level s' <= 9).
Proof.
  destruct o as [c a]. destruct c as [b0 b1 b2 b3 b4 b5 b6 b7].
  destruct b0, b1, b2, b3, b4, b5, b6, b7;
    cbn [option_case ch optarg Ascii.eqb Bool.eqb negb andb]; intros H;
    first
      [ discriminate H
      | fields_done
      | destruct (strtol a) as [optint optend];
        rewrite when_usage in H;
        match type of H with
        | (if ?c then _ else _) = _ =>
            destruct c; [discriminate H | fields_done]
        end
      | destruct (strtod w a) as [optdbl optend];
        rewrite when_usage in H;
        match type of H with
        | (if ?c then _ else _) = _ =>
            destruct c; [discriminate H | fields_done]
        end ].
Qed.

Lemma option_loop_fields (opts : list gopt) (s s' : locals) :
  option_loop w opts s = ret s' ->
  tar s' = tar s && negb (flag_given "t" opts)
  /\ keep_input s' = keep_input s || flag_given "k" opts
  /\ extreme s' = extreme s || flag_given "e" opts
  /\ ipath s' = from_option_opt (ipath s) (last_arg "i" opts)
  /\ opath s' = from_option_opt (opath s) (last_arg "o" opts)
  /\ (0 <= level s <= 9 -> 0 <= level s' <= 9).
Proof.
  revert s. induction opts as [|o rest IH]; intros s H.
  - injection H as <-. unfold flag_given, last_arg.
    cbn [existsb last_some from_option_opt negb].
    rewrite andb_true_r, !orb_false_r. repeat split; tauto.
  - cbn [option_loop] in H.
    destruct (option_case_result w o s)
      as [[s1 [E _]] | [[msg E] | [E | E]]]; rewrite E in H;
      try discriminate H.
    rewrite bind_ret_l in H.
    destruct (option_case_fields o s s1 E) as [F1 [F2 [F3 [F4 [F5 F6]]]]].
    destruct (IH s1 H) as [G1 [G2 [G3 [G4 [G5 G6]]]]].
    clear IH.
    change (flag_given "t" (o :: rest))
      with (Ascii.eqb (ch o) "t" || flag_given "t" rest).
    change (flag_given "k" (o :: rest))
      with (Ascii.eqb (ch o) "k" || flag_given "k" rest).
    change (flag_given "e" (o :: rest))
      with (Ascii.eqb (ch o) "e" || flag_given "e" rest).
    change (last_arg "i" (o :: rest))
      with (match last_arg "i" rest with
            | Some b => Some b
            | None => if Ascii.eqb (ch o) "i" then Some (optarg o) else None
            end).
    change (last_arg "o" (o :: rest))
      with (match last_arg "o" rest with
            | Some b => Some b
            | None => if Ascii.eqb (ch o) "o" then Some (optarg o) else None
            end).
    rewrite G1, G2, G3, G4, G5, F1, F2, F3, F4, F5.
    split; [|split; [|split; [|split; [|split]]]].
    + rewrite negb_orb. now rewrite andb_assoc.
    + now rewrite orb_assoc.
    + now rewrite orb_assoc.
    + destruct (last_arg "i" rest); [reflexivity|].
      now destruct (Ascii.eqb (ch o) "i").
    + destruct (last_arg "o" rest); [reflexivity|].
      now destruct (Ascii.eqb (ch o) "o").
    + auto.
Qed.

End OptionFields.

Section OptionProperties.

Variable w : world.

(** X7.  When the option loop reaches its end, tar-awareness is off
    exactly when -t was given, the input is kept exactly when -k was
    given, the extreme modifier is on exactly when -e was given, however
    often and wherever they stood; and the input and output paths are the
    arguments of the last -i and the last -o, NULL when there was none. *)
Theorem flags_accumulate (opts : list gopt) (t : list event) (s : locals) :
  option_loop w opts initial = (t, inl s) ->
  tar s = negb (flag_given "t" opts)
  /\ keep_input s = flag_given "k" opts
  /\ extreme s = flag_given "e" opts
  /\ ipath s = last_arg "i" opts
  /\ opath s = last_arg "o" opts.
Proof.
  intros H. destruct (option_loop_inl w opts initial t s H) as [-> _].
  destruct (option_loop_fields w opts initial s H)
    as [F1 [F2 [F3 [F4 [F5 _]]]]].
  cbn [initial tar keep_input extreme ipath opath andb orb] in *.
  rewrite F1, F2, F3, F4, F5. repeat split.
  - now destruct (last_arg "i" opts).
  - now destruct (last_arg "o" opts).
Qed.

(** X8.  The compression level stays between 0 and 9 whatever the
    options, and the level handed to the write entry point is that level,
    with bit 31 added when -e was given: a value that fits 32 bits. *)
Theorem level_in_range (opts : list gopt) (t : list event) (s : locals) :
  option_loop w opts initial = (t, inl s) ->
  0 <= level s <= 9
  /\ forall args tr lv,
       In (Ev_pixz_write tr lv) (fst (dispatch w args s)) ->
       tr = tar s
       /\ lv = level s + (if extreme s then 2 ^ 31 else 0)
       /\ 0 <= lv < 2 ^ 32.
Proof.
  intros H. destruct (option_loop_inl w opts initial t s H) as [-> _].
  destruct (option_loop_fields w opts initial s H) as [_ [_ [_ [_ [_ R]]]]].
  assert (L : 0 <= level s <= 9)
    by (apply R; unfold initial, LZMA_PRESET_DEFAULT; cbn [level]; lia).
  split; [exact L|].
  assert (V : forall tr lv,
             Ev_pixz_write tr lv
             = Ev_pixz_write (tar s)
                 (if extreme s then Z.lor (level s) LZMA_PRESET_EXTREME
                  else level s) ->
             tr = tar s
             /\ lv = level s + (if extreme s then 2 ^ 31 else 0)
             /\ 0 <= lv < 2 ^ 32).
  { intros tr lv [= -> ->]. split; [reflexivity|].
    destruct (extreme s); cbv iota; [|lia].
    assert (E : Z.lor (level s) LZMA_PRESET_EXTREME = level s + 2 ^ 31).
    { assert (C : level s = 0 \/ level s = 1 \/ level s = 2 \/ level s = 3
                  \/ level s = 4 \/ level s = 5 \/ level s = 6
                  \/ level s = 7 \/ level s = 8 \/ level s = 9) by lia.
      destruct C as [C|[C|[C|[C|[C|[C|[C|[C|[C|C]]]]]]]]];
        rewrite C; reflexivity. }
    rewrite E. lia. }
  intros args tr lv I. unfold dispatch, call in I.
  destruct (op s); try destruct (out_isatty w (opath s));
    match type of I with
    | context [engine w ?e] => destruct (engine w e)
    | _ => idtac
    end;
    cbn in I;
    repeat match type of I with
           | _ \/ _ => destruct I as [I | I]
           | False => contradiction
           end;
    try discriminate I; now apply V.
Qed.

(** X9.  Once every option before it is accepted, -h shows the help text
    and -V the version line, and the process exits with 0, whatever
    options and arguments follow: they are not looked at. *)
Theorem help_and_version_win (pre rest : list gopt) (a : string)
    (args : list string) :
  Forall (fun o => exists s', option_case w o initial = ret s') pre ->
  main w (pre ++ mkopt "h" a :: rest) args
  = ([Ev_stderr (usage_text (PACKAGE_VERSION w))], Exit 0)
  /\ main w (pre ++ mkopt "V" a :: rest) args
     = ([Ev_stderr ("pixz " ++ PACKAGE_VERSION w ++ nl)], Exit 0).
Proof.
  intros F.
  apply (option_loop_goes_on_iff w pre initial) in F as [s1 E].
  unfold main, main_body. rewrite !option_loop_app, E, !bind_ret_l.
  cbn [option_loop option_case ch]. split; reflexivity.
Qed.

(** X12.  An integer literal beyond the range of [long] is not rejected:
    for -q a positive literal, and for -p one that is not negative, is
    accepted, and the bound stored is the literal's value or, when that is
    larger, the largest [long]. *)
Theorem bound_beyond_long_accepted (a : string) (v : Z) (s : locals) :
  integer_literal a = Some v ->
  (0 < v ->
   option_case w (mkopt "q" a) s
   = ret (set_gPipelineQSize (Z.min v LONG_MAX) s))
  /\ (0 <= v ->
      option_case w (mkopt "p" a) s
      = ret (set_gPipelineProcessMax (Z.min v LONG_MAX) s)).
Proof.
  intros L.
  assert (C : 0 <= v -> clamp_long v = Z.min v LONG_MAX).
  { intros P. unfold clamp_long, LONG_MIN, LONG_MAX.
    destruct (Z.ltb_spec v (- 2 ^ 63)); [lia|].
    destruct (Z.ltb_spec (2 ^ 63 - 1) v); lia. }
  split; intros P; cbn [option_case ch optarg];
    rewrite (strtol_literal a v L), when_usage; cbn [deref];
    replace (is_nul NUL) with true by reflexivity; cbn [negb];
    rewrite orb_false_r, C by lia.
  - replace (Z.min v LONG_MAX <=? 0) with false; [reflexivity|].
    symmetry. apply Z.leb_gt. unfold LONG_MAX. lia.
  - replace (Z.min v LONG_MAX <? 0) with false; [reflexivity|].
    symmetry. apply Z.ltb_ge. unfold LONG_MAX. lia.
Qed.

End OptionProperties.

Lemma flags_accumulate_witness :
  option_loop calm [mkopt "k" ""; mkopt "o" "a"; mkopt "t" ""; mkopt "o" "b"]
    initial
  = ([], inl (set_opath (Some "b") (set_tar false (set_opath (Some "a")
                (set_keep_input true initial)))))
  /\ opath (set_opath (Some "b") (set_tar false (set_opath (Some "a")
                (set_keep_input true initial)))) = Some "b".
Proof.
  split; [reflexivity|].
  exact (proj2 (proj2 (proj2 (proj2
           (flags_accumulate calm
              [mkopt "k" ""; mkopt "o" "a"; mkopt "t" ""; mkopt "o" "b"]
              [] _ eq_refl))))).
Defined.

Lemma level_in_range_witness :
  option_loop calm [mkopt "3" ""; mkopt "e" ""] initial
  = ([], inl (set_extreme true (set_level 3 initial)))
  /\ 0 <= level (set_extreme true (set_level 3 initial)) <= 9.
Proof.
  split; [reflexivity|].
  exact (proj1 (level_in_range calm [mkopt "3" ""; mkopt "e" ""] [] _
                  eq_refl)).
Defined.

Lemma help_and_version_win_witness :
  Forall (fun o => exists s', option_case calm o initial = ret s')
         [mkopt "d" ""]
  /\ main calm ([mkopt "d" ""] ++ mkopt "h" "" :: [mkopt "?" ""])
          ["a"; "b"; "c"]
     = ([Ev_stderr (usage_text (PACKAGE_VERSION calm))], Exit 0).
Proof.
  assert (F : Forall (fun o => exists s', option_case calm o initial = ret s')
                     [mkopt "d" ""]).
  { constructor; [|constructor]. eexists. reflexivity. }
  split; [exact F|].
  exact (proj1 (help_and_version_win calm [mkopt "d" ""] [mkopt "?" ""] ""
                  ["a"; "b"; "c"] F)).
Defined.

Lemma bound_beyond_long_accepted_witness :
  integer_literal "99999999999999999999" = Some 99999999999999999999
  /\ option_case calm (mkopt "q" "99999999999999999999") initial
     = ret (set_gPipelineQSize LONG_MAX initial).
Proof.
  split; [reflexivity|].
  refine (proj1 (bound_beyond_long_accepted calm "99999999999999999999"
                   99999999999999999999 initial eq_refl) _).
  lia.
Defined.

Lemma thread_bound_accepted_iff_witness :
  nonul "12" = true
  /\ exists s', option_case calm (mkopt "p" "12") initial = ret s'.
Proof.
  split; [reflexivity|].
  apply (proj2 (thread_bound_accepted_iff calm "12" initial eq_refl)).
  right. exists 12. split; [reflexivity | lia].
Defined.

Lemma queue_bound_accepted_iff_witness :
  nonul "0" = true
  /\ ~ exists s', option_case calm (mkopt "q" "0") initial = ret s'.
Proof.
  split; [reflexivity|]. intros H.
  apply (proj1 (queue_bound_accepted_iff calm "0" initial eq_refl)) in H.
  destruct H as [v [[= <-] P]]. lia.
Defined.

(** ** The course of a run *)

Section RunFacts.

Variable w : world.

(** The switch on the operation: the terminal test in Write mode, then
    the refusal or the one call into the engine. *)
Lemma dispatch_shape (args : list string) (s : locals) :
  (op s = OP_WRITE /\ out_isatty w (opath s) = true
   /\ dispatch w args s
      = ([Ev_isatty_out;
          Ev_stderr ("Refusing to output to a TTY" ++ nl ++ nl);
          Ev_stderr (usage_text (PACKAGE_VERSION w))], inr (Exit 2)))
  \/ exists pre e,
       (pre = [] \/ pre = [Ev_isatty_out])
       /\ is_engine_call e = true
       /\ ((engine w e = None /\ dispatch w args s = (pre ++ [e], inl tt))
           \/ exists msg, engine w e = Some msg
                /\ dispatch w args s = (pre ++ [e], inr (Died msg))).
Proof.
  unfold dispatch. destruct (op s) eqn:Hop.
  - destruct (out_isatty w (opath s)) eqn:Ht.
    + left. repeat split.
    + right. exists [Ev_isatty_out].
      match goal with
      | |- context [call w ?e] =>
          exists e; destruct (call_result w e) as [[E1 E2] | [msg [E1 E2]]]
      end; (split; [now right|]); (split; [reflexivity|]).
      * left. split; [exact E1|]. cbn [bind emit ret]. now rewrite E2.
      * right. exists msg. split; [exact E1|]. cbn [bind emit ret].
        now rewrite E2.
  - right. exists [].
    match goal with
    | |- context [call w ?e] =>
        exists e; destruct (call_result w e) as [[E1 E2] | [msg [E1 E2]]]
    end; (split; [now left|]); (split; [reflexivity|]);
      [left | right; exists msg]; split; assumption.
  - right. exists [].
    match goal with
    | |- context [call w ?e] =>
        exists e; destruct (call_result w e) as [[E1 E2] | [msg [E1 E2]]]
    end; (split; [now left|]); (split; [reflexivity|]);
      [left | right; exists msg]; split; assumption.
  - right. exists [].
    match goal with
    | |- context [call w ?e] =>
        exists e; destruct (call_result w e) as [[E1 E2] | [msg [E1 E2]]]
    end; (split; [now left|]); (split; [reflexivity|]);
      [left | right; exists msg]; split; assumption.
Qed.

Lemma main_course (opts : list gopt) (args : list string)
    (s0 s : locals) (r : bool) :
  option_loop w opts initial = ret s0 ->
  positional w args s0 = ret (s, r) ->
  course w s r (main w opts args).
Proof.
  intros H1 H2. unfold main, main_body.
  rewrite H1, bind_ret_l, H2, bind_ret_l.
  destruct (open_streams_result w s) as [t1 [Q1 [E3 | [msg E3]]]];
    rewrite E3.
  2: { cbn [bind]. now apply Course_open_failed. }
  rewrite bind_cons.
  destruct (dispatch_shape args s)
    as [[Hop [Ht E4]] | [pre [e [P [He [[En E4] | [msg [En E4]]]]]]]];
    rewrite E4.
  - cbn [bind fst snd]. now apply Course_refused.
  - rewrite bind_cons. cbn [fst snd].
    pose proof (Course_done w s r t1 pre e Q1 E3 P He En) as C.
    destruct (r && negb (keep_input s));
      cbn [bind emit ret fst snd app];
      rewrite <- ?app_assoc; cbn [app]; exact C.
  - cbn [bind fst snd]. now apply Course_engine_died.
Qed.

(** A run whose options or arguments were not accepted: what it wrote
    and how it ended. *)
Lemma main_rejected (opts : list gopt) (args : list string) :
  (exists s0 s r,
      option_loop w opts initial = ret s0
      /\ positional w args s0 = ret (s, r))
  \/ (exists msg,
        main w opts args
        = ([Ev_stderr (msg ++ nl ++ nl);
            Ev_stderr (usage_text (PACKAGE_VERSION w))], Exit 2))
  \/ main w opts args
     = ([Ev_stderr (usage_text (PACKAGE_VERSION w))], Exit 0)
  \/ main w opts args
     = ([Ev_stderr ("pixz " ++ PACKAGE_VERSION w ++ nl)], Exit 0)
  \/ (exists s0,
        option_loop w opts initial = ret s0
        /\ positional w args s0 = halt Undefined
        /\ main w opts args = ([], Undefined)).
Proof.
  unfold main, main_body.
  destruct (option_loop_result w opts initial)
    as [[s0 [E _]] | [[msg E] | [E | E]]]; rewrite E.
  - rewrite bind_ret_l.
    destruct (positional_result w args s0)
      as [[[s r] E2] | [[msg E2] | E2]].
    + left. now exists s0, s, r.
    + right. left. exists msg. rewrite E2. reflexivity.
    + right. right. right. right. exists s0. rewrite E2.
      repeat split.
  - right. left. exists msg. reflexivity.
  - right. right. left. reflexivity.
  - right. right. right. left. reflexivity.
Qed.

Lemma setup_no_engine (t : list event) :
  forallb is_setup t = true -> engine_calls t = [].
Proof.
  unfold engine_calls. induction t as [|e t IH]; [reflexivity|].
  cbn [forallb filter]. intros H. apply andb_prop in H as [He Ht].
  rewrite (IH Ht). now destruct e.
Qed.

Lemma setup_no_unlink (t : list event) (p : string) :
  forallb is_setup t = true -> ~ In (Ev_unlink p) t.
Proof.
  rewrite forallb_forall. intros H I. apply H in I. discriminate I.
Qed.

Lemma pre_is_setup (pre : list event) :
  pre = [] \/ pre = [Ev_isatty_out] -> forallb is_setup pre = true.
Proof. intros [-> | ->]; reflexivity. Qed.

(** Where [unlink] can stand in a run. *)
Lemma unlink_in_course (s : locals) (r : bool) (x : list event * outcome)
    (p : string) :
  course w s r x -> In (Ev_unlink p) (fst x) ->
  r = true /\ keep_input s = false /\ p = from_path (ipath s)
  /\ snd x = Exit 0
  /\ exists pre e,
       is_engine_call e = true /\ engine w e = None
       /\ forallb is_setup pre = true
       /\ fst x = pre ++ [e; Ev_unlink p].
Proof.
  intros C I. destruct C as [t1 msg Q1 E|t1 Q1 E Hop Ht
                             |t1 pre e msg Q1 E P He En
                             |t1 pre e Q1 E P He En]; cbn [fst snd] in *.
  - now apply setup_no_unlink in I.
  - apply in_app_or in I as [I | I]; [now apply setup_no_unlink in I|].
    cbn in I. destruct I as [I | [I | [I | []]]]; discriminate I.
  - apply in_app_or in I as [I | I]; [now apply setup_no_unlink in I|].
    apply in_app_or in I as [I | [I | []]].
    + now apply setup_no_unlink in I; [|apply pre_is_setup].
    + subst e. discriminate He.
  - apply in_app_or in I as [I | I]; [now apply setup_no_unlink in I|].
    apply in_app_or in I as [I | I];
      [now apply setup_no_unlink in I; [|apply pre_is_setup]|].
    destruct I as [I | I]; [subst e; discriminate He|].
    destruct r; [|destruct I]. destruct (keep_input s); [destruct I|].
    cbn [andb negb] in *. destruct I as [I | []]. injection I as <-.
    repeat split. exists (t1 ++ pre), e.
    split; [exact He|]. split; [exact En|]. split.
    + rewrite forallb_app, Q1. now apply pre_is_setup.
    + now rewrite <- app_assoc.
Qed.

End RunFacts.

(** C10.  In Read mode with the single remaining argument [.xz] and no
    -i, the resolver gives the empty string and not NULL: the output
    path is the empty name and the input is marked for removal, nothing
    is written to the diagnostic stream, the run opens the input [.xz],
    and when that succeeds it goes on to [stat] and to
    [open(O_CREAT|O_WRONLY)] on the empty name. *)
Theorem bare_suffix_resolves_to_empty (w : world) (opts : list gopt)
    (s : locals) :
  option_loop w opts initial = ret s ->
  op s = OP_READ -> ipath s = None ->
  auto_output_arg w OP_READ ".xz" = Ok (Some "")
  /\ positional w [".xz"] s
     = ret (set_opath (Some "") (set_ipath (Some ".xz") s), true)
  /\ (forall text, ~ In (Ev_stderr text) (fst (main w opts [".xz"])))
  /\ exists rest,
       fst (main w opts [".xz"]) = Ev_fopen ".xz" "r" :: rest
       /\ (fopen_ok w ".xz" "r" = true ->
           exists rest',
             rest = Ev_stat ".xz"
                    :: Ev_open "" [O_CREAT; O_WRONLY]
                         match stat_st_mode w ".xz" with
                         | Some m => m
                         | None => unset_st_mode w
                         end
                    :: rest').
Proof.
  intros H1 Hop Hi.
  assert (R : auto_output_arg w OP_READ ".xz" = Ok (Some "")).
  { rewrite auto_output_arg_resolve;
      [reflexivity | reflexivity | unfold size_max; cbn; lia]. }
  assert (P : positional w [".xz"] s
              = ret (set_opath (Some "") (set_ipath (Some ".xz") s), true)).
  { rewrite positional_single by auto.
    rewrite Hop, R. cbn [lift]. now rewrite bind_ret_l. }
  split; [exact R|]. split; [exact P|]. split.
  - intros text I.
    destruct (main_course w opts [".xz"] s _ _ H1 P)
      as [t1 msg Q1 E|t1 Q1 E Hw Ht|t1 pre e msg Q1 E Pp He En
          |t1 pre e Q1 E Pp He En]; cbn [fst] in I.
    + rewrite forallb_forall in Q1. apply Q1 in I. discriminate I.
    + cbn [op set_opath set_ipath] in Hw. congruence.
    + rewrite forallb_forall in Q1.
      apply in_app_or in I as [I | I]; [apply Q1 in I; discriminate I|].
      apply in_app_or in I as [I | [I | []]].
      * apply pre_is_setup in Pp. rewrite forallb_forall in Pp.
        apply Pp in I. discriminate I.
      * subst e. discriminate He.
    + rewrite forallb_forall in Q1.
      apply in_app_or in I as [I | I]; [apply Q1 in I; discriminate I|].
      apply in_app_or in I as [I | I].
      * apply pre_is_setup in Pp. rewrite forallb_forall in Pp.
        apply Pp in I. discriminate I.
      * destruct I as [I | I]; [subst e; discriminate He|].
        destruct (true && negb
                    (keep_input
                       (set_opath (Some "") (set_ipath (Some ".xz") s))));
          [destruct I as [I | []]; discriminate I | destruct I].
  - unfold main, main_body. rewrite H1, bind_ret_l, P, bind_ret_l.
    unfold open_streams.
    cbn [ipath opath keep_input set_opath set_ipath andb].
    destruct (fopen_ok w ".xz" "r").
    + destruct (open_ok w "" [O_CREAT; O_WRONLY]
                  match stat_st_mode w ".xz" with
                  | Some m => m
                  | None => unset_st_mode w
                  end), (fdopen_ok w ""),
        (dispatch w [".xz"]
           (set_opath (Some "") (set_ipath (Some ".xz") s)))
        as [td [[]|od]], (keep_input s);
        cbn; eexists; (split; [reflexivity|]); intros _; eexists;
        reflexivity.
    + cbn. eexists. split; [reflexivity|]. intros X. discriminate X.
Qed.

Lemma bare_suffix_resolves_to_empty_witness :
  option_loop calm [mkopt "d" ""] initial = ret (set_op OP_READ initial)
  /\ op (set_op OP_READ initial) = OP_READ
  /\ ipath (set_op OP_READ initial) = None
  /\ positional calm [".xz"] (set_op OP_READ initial)
     = ret (set_opath (Some "")
              (set_ipath (Some ".xz") (set_op OP_READ initial)), true).
Proof.
  split; [reflexivity|]. split; [reflexivity|]. split; [reflexivity|].
  exact (proj1 (proj2 (bare_suffix_resolves_to_empty calm [mkopt "d" ""]
                         (set_op OP_READ initial)
                         eq_refl eq_refl eq_refl))).
Defined.

Section RunProperties.

Variable w : world.

(** X14.  The input file is never removed on a run that fails: [unlink]
    is called only as the last thing of a run that ends with 0, right
    after a call into the engine that returned, only on the single
    remaining argument, and only when -k was not given. *)
Theorem unlink_only_after_engine (opts : list gopt) (args : list string)
    (p : string) :
  In (Ev_unlink p) (fst (main w opts args)) ->
  snd (main w opts args) = Exit 0
  /\ args = [p]
  /\ flag_given "k" opts = false
  /\ exists pre e,
       is_engine_call e = true /\ engine w e = None
       /\ forallb is_setup pre = true
       /\ fst (main w opts args) = pre ++ [e; Ev_unlink p].
Proof.
  intros I.
  destruct (main_rejected w opts args)
    as [[s0 [s [r [H1 H2]]]] | [[msg E] | [E | [E | [s0 [_ [_ E]]]]]]];
    try (rewrite E in I; cbn in I; intuition discriminate).
  destruct (unlink_in_course w s r _ p (main_course w opts args s0 s r H1 H2) I)
    as [Hr [Hk [Hp [Ho X]]]].
  destruct (positional_iremove w args s0 s r H2) as [K [R1 R2]].
  destruct (proj1 R1 Hr) as [_ Hc]. destruct (R2 Hr) as [Hi _].
  destruct (option_loop_fields w opts initial s0 H1) as [_ [F2 _]].
  split; [exact Ho|]. split; [|split; [|exact X]].
  - rewrite Hi in Hp. cbn [from_path] in Hp. unfold argc in Hc.
    destruct args as [|a [|b l]]; cbn [List.length] in Hc; try lia.
    now subst p.
  - rewrite K, F2 in Hk. exact Hk.
Qed.

(** X13.  On a run in which the engine returned, [unlink] is called
    exactly when the output name was derived from the input name, that
    is in Read or Write mode (the last operation flag is -d, or there is
    none) with exactly one remaining argument, and -k was not among the
    options. *)
Theorem input_removed_iff (opts : list gopt) (args : list string) :
  completed w (fst (main w opts args)) ->
  (exists p, In (Ev_unlink p) (fst (main w opts args)))
  <-> (from_option OP_WRITE (last_some mode_flag (map ch opts)) = OP_READ
       \/ from_option OP_WRITE (last_some mode_flag (map ch opts))
          = OP_WRITE)
      /\ argc args = 1
      /\ flag_given "k" opts = false.
Proof.
  intros C.
  destruct (main_rejected w opts args)
    as [[s0 [s [r [H1 H2]]]] | [[msg E] | [E | [E | [s0 [_ [_ E]]]]]]].
  - pose proof (unlink_iff_iremove w opts args s0 s r H1 H2 C) as U.
    destruct (positional_iremove w args s0 s r H2) as [K [R1 _]].
    destruct (option_loop_fields w opts initial s0 H1) as [_ [F2 _]].
    destruct (option_loop_inl w opts initial [] s0 H1) as [_ [Ho _]].
    cbn [initial keep_input op orb] in F2, Ho.
    rewrite K, F2 in U. rewrite Ho in R1. tauto.
  - exfalso. rewrite E in C. apply completed_last in C as [e [L C]].
    injection L as <-. destruct C as [[C _] | [p C]]; discriminate C.
  - exfalso. rewrite E in C. apply completed_last in C as [e [L C]].
    injection L as <-. destruct C as [[C _] | [p C]]; discriminate C.
  - exfalso. rewrite E in C. apply completed_last in C as [e [L C]].
    injection L as <-. destruct C as [[C _] | [p C]]; discriminate C.
  - exfalso. rewrite E in C. apply completed_last in C as [e [L C]].
    discriminate L.
Qed.

(** X15.  A run calls at most one entry point of the engine, and none
    when it ends with exit code 2; when it calls one, it ends with 0 if
    the engine returned and in [die] with the engine's message if it did
    not. *)
Theorem engine_called_at_most_once (opts : list gopt)
    (args : list string) :
  (List.length (engine_calls (fst (main w opts args))) <= 1)%nat
  /\ (snd (main w opts args) = Exit 2 ->
      engine_calls (fst (main w opts args)) = [])
  /\ (forall e, In e (engine_calls (fst (main w opts args))) ->
        (snd (main w opts args) = Exit 0 /\ engine w e = None)
        \/ exists msg,
             snd (main w opts args) = Died msg /\ engine w e = Some msg).
Proof.
  destruct (main_rejected w opts args)
    as [[s0 [s [r [H1 H2]]]] | [[msg E] | [E | [E | [s0 [_ [_ E]]]]]]];
    try (rewrite E; cbn; repeat split; try lia; intuition).
  destruct (main_course w opts args s0 s r H1 H2)
    as [t1 msg Q1 E|t1 Q1 E Hop Ht|t1 pre e msg Q1 E P He En
        |t1 pre e Q1 E P He En]; cbn [fst snd].
  - rewrite (setup_no_engine t1 Q1). cbn. repeat split; try lia; intuition.
  - unfold engine_calls. rewrite filter_app.
    fold (engine_calls t1). rewrite (setup_no_engine t1 Q1). cbn.
    repeat split; try lia; intuition.
  - unfold engine_calls. rewrite !filter_app.
    fold (engine_calls t1) (engine_calls pre).
    rewrite (setup_no_engine t1 Q1),
            (setup_no_engine pre (pre_is_setup pre P)).
    cbn [filter app]. rewrite He. cbn [List.length].
    split; [lia|]. split; [intros X; discriminate X|].
    intros e' [<- | []]. right. now exists msg.
  - unfold engine_calls. rewrite !filter_app.
    fold (engine_calls t1) (engine_calls pre).
    rewrite (setup_no_engine t1 Q1),
            (setup_no_engine pre (pre_is_setup pre P)).
    cbn [filter app]. rewrite He.
    replace (filter is_engine_call
               (if r && negb (keep_input s)
                then [Ev_unlink (from_path (ipath s))] else []))
      with (@nil event) by (now destruct (r && negb (keep_input s))).
    cbn [List.length].
    split; [lia|]. split; [intros X; discriminate X|].
    intros e' [<- | []]. left. now split.
Qed.

(** X16.  A usage error is raised before any file is opened or created,
    with one exception: the refusal to write to a terminal comes after
    the streams were opened.  So a run that ends with exit code 2 wrote
    either just a message and the usage text, or opened its streams,
    tested the output for a terminal and wrote the refusal. *)
Theorem usage_error_before_files (opts : list gopt) (args : list string) :
  snd (main w opts args) = Exit 2 ->
  (exists msg,
      fst (main w opts args)
      = [Ev_stderr (msg ++ nl ++ nl);
         Ev_stderr (usage_text (PACKAGE_VERSION w))])
  \/ (exists t1,
        forallb is_setup t1 = true
        /\ fst (main w opts args)
           = t1 ++ [Ev_isatty_out;
                    Ev_stderr ("Refusing to output to a TTY" ++ nl ++ nl);
                    Ev_stderr (usage_text (PACKAGE_VERSION w))]).
Proof.
  intros X.
  destruct (main_rejected w opts args)
    as [[s0 [s [r [H1 H2]]]] | [[msg E] | [E | [E | [s0 [_ [_ E]]]]]]];
    try (rewrite E in X; discriminate X).
  - destruct (main_course w opts args s0 s r H1 H2)
      as [t1 msg Q1 E|t1 Q1 E Hop Ht|t1 pre e msg Q1 E P He En
          |t1 pre e Q1 E P He En]; cbn [fst snd] in *;
      try discriminate X.
    right. now exists t1.
  - left. exists msg. now rewrite E.
Qed.

(** X17.  When the input path cannot be opened, the process ends in [die]
    with the path and the reason in its message, and has done nothing
    else: no output file is created, the engine is not called. *)
Theorem missing_input_creates_nothing (opts : list gopt)
    (args : list string) (s0 s : locals) (r : bool) (i : string) :
  option_loop w opts initial = ret s0 ->
  positional w args s0 = ret (s, r) ->
  ipath s = Some i ->
  fopen_ok w i "r" = false ->
  main w opts args
  = ([Ev_fopen i "r"],
     Died ("can not open input file: " ++ i ++ ": " ++ strerror_errno w i)).
Proof.
  intros H1 H2 Hi Hf. unfold main, main_body.
  rewrite H1, bind_ret_l, H2, bind_ret_l.
  unfold open_streams. rewrite Hi, Hf. reflexivity.
Qed.

(** X18.  Without an input path the output path is opened with
    [fopen(opath, "w")], and nothing else of the run touches the file
    system: no [stat], no [open], no [unlink]. *)
Theorem output_from_stdin_uses_fopen (opts : list gopt)
    (args : list string) (s0 s : locals) (r : bool) (o : string) :
  option_loop w opts initial = ret s0 ->
  positional w args s0 = ret (s, r) ->
  ipath s = None -> opath s = Some o ->
  exists rest,
    fst (main w opts args) = Ev_fopen o "w" :: rest
    /\ forallb (fun e => negb (touches_files e)) rest = true.
Proof.
  intros H1 H2 Hi Ho.
  assert (Hr : r = false).
  { destruct r; [|reflexivity].
    destruct (positional_iremove w args s0 s true H2) as [_ [_ R]].
    destruct (R eq_refl) as [X _]. rewrite Hi in X. discriminate X. }
  assert (O : open_streams w s
              = ([Ev_fopen o "w"],
                 if fopen_ok w o "w" then inl tt
                 else inr (Died ("can not open output file: " ++ o ++ ": "
                                 ++ strerror_errno w o)))).
  { unfold open_streams. rewrite Hi, Ho.
    destruct (fopen_ok w o "w"); reflexivity. }
  assert (P : forall pre, pre = [] \/ pre = [Ev_isatty_out] ->
              forallb (fun e => negb (touches_files e)) pre = true)
    by (intros pre [-> | ->]; reflexivity).
  destruct (main_course w opts args s0 s r H1 H2)
    as [t1 msg Q1 E|t1 Q1 E Hop Ht|t1 pre e msg Q1 E Pp He En
        |t1 pre e Q1 E Pp He En]; cbn [fst];
    rewrite O in E; injection E as <- E; cbn [app]; eexists;
    (split; [reflexivity|]).
  - reflexivity.
  - reflexivity.
  - rewrite forallb_app, (P pre Pp). cbn. now destruct e.
  - subst r. cbn [andb]. rewrite forallb_app, (P pre Pp). cbn.
    now destruct e.
Qed.

(** X19.  In List and Extract mode no output name is derived and the
    input is never removed, with or without -k: when the remaining
    arguments are accepted the output path is still the one of -o, and no
    run calls [unlink]. *)
Theorem list_and_extract_keep_input (opts : list gopt)
    (args : list string) (s0 : locals) :
  option_loop w opts initial = ret s0 ->
  op s0 = OP_LIST \/ op s0 = OP_EXTRACT ->
  (forall s r, positional w args s0 = ret (s, r) ->
     r = false /\ opath s = opath s0)
  /\ (forall p, ~ In (Ev_unlink p) (fst (main w opts args))).
Proof.
  intros H1 Hop.
  assert (A : forall s r, positional w args s0 = ret (s, r) ->
              r = false /\ opath s = opath s0).
  { intros s r H2.
    assert (Hr : r = false).
    { destruct r; [|reflexivity].
      destruct (positional_iremove w args s0 s true H2) as [_ [R _]].
      destruct (proj1 R eq_refl) as [[X | X] _];
        destruct Hop as [Y | Y]; rewrite Y in X; discriminate X. }
    split; [exact Hr|]. subst r. unfold positional in H2.
    destruct Hop as [Y | Y]; rewrite Y in H2;
      cbn [op_eqb negb andb] in H2.
    - destruct (1 <=? argc args); [|now injection H2 as <-].
      rewrite !when_usage in H2.
      destruct ((2 <? argc args) || (argc args =? 2)) eqn:C;
        [rewrite usage_some in H2; discriminate H2|].
      destruct (is_some (ipath s0));
        [rewrite usage_some in H2; discriminate H2|].
      apply orb_false_elim in C as [_ C].
      rewrite C in H2. cbn [op set_ipath] in H2. rewrite Y in H2.
      cbn [op_eqb negb] in H2. now injection H2 as <-.
    - now injection H2 as <-. }
  split; [exact A|]. intros p I.
  destruct (main_rejected w opts args)
    as [[s0' [s [r [H1' H2]]]] | [[msg E] | [E | [E | [s0' [_ [_ E]]]]]]];
    try (rewrite E in I; cbn in I; intuition discriminate).
  rewrite H1 in H1'. injection H1' as <-.
  destruct (unlink_in_course w s r _ p
              (main_course w opts args s0 s r H1 H2) I) as [Hr _].
  destruct (A s r H2) as [X _]. congruence.
Qed.

End RunProperties.

Section ArgumentProperties.

Variable w : world.

(** X21.  An input path given with -i excludes every remaining argument
    outside Extract mode: the run ends with exit code 2 and the message
    that there are too many arguments or several input files, before any
    file is opened.  In the same way an output path given with -o
    excludes a second remaining argument. *)
Theorem path_flags_exclude_arguments (opts : list gopt)
    (args : list string) (s : locals) :
  option_loop w opts initial = ret s ->
  op s <> OP_EXTRACT ->
  args <> [] ->
  (is_some (ipath s) = true ->
   exists msg,
     (msg = "Too many arguments"%string
      \/ msg = "Multiple input files specified"%string)
     /\ main w opts args
        = ([Ev_stderr (msg ++ nl ++ nl);
            Ev_stderr (usage_text (PACKAGE_VERSION w))], Exit 2))
  /\ (is_some (ipath s) = false -> is_some (opath s) = true ->
      argc args = 2 -> op s <> OP_LIST ->
      main w opts args
      = ([Ev_stderr ("Multiple output files specified" ++ nl ++ nl);
          Ev_stderr (usage_text (PACKAGE_VERSION w))], Exit 2)).
Proof.
  intros H1 Hop Ha.
  assert (C0 : negb (op_eqb (op s) OP_EXTRACT) && (1 <=? argc args) = true).
  { apply andb_true_intro. split.
    - destruct (op s); try reflexivity. now elim Hop.
    - apply Z.leb_le. unfold argc. destruct args; [now elim Ha|].
      cbn [List.length]. lia. }
  split.
  - intros Hi. unfold main, main_body.
    rewrite H1, bind_ret_l. unfold positional. rewrite C0, when_usage.
    destruct ((2 <? argc args)
              || (op_eqb (op s) OP_LIST && (argc args =? 2))).
    + eexists. split; [left; reflexivity | reflexivity].
    + rewrite when_usage, Hi.
      eexists. split; [right; reflexivity | reflexivity].
  - intros Hi Ho Hc Hl. unfold main, main_body.
    rewrite H1, bind_ret_l. unfold positional. rewrite C0, when_usage, Hc.
    replace (op_eqb (op s) OP_LIST) with false
      by (destruct (op s); try reflexivity; now elim Hl).
    cbn [Z.ltb Z.eqb Z.compare Pos.compare Pos.compare_cont Pos.eqb
         andb orb].
    rewrite when_usage, Hi, when_usage.
    cbn [opath set_ipath]. rewrite Ho. reflexivity.
Qed.

End ArgumentProperties.

(** ** Instances of the further properties *)

Lemma input_removed_iff_witness :
  completed calm (fst (main calm [] ["notes.txt"]))
  /\ exists p, In (Ev_unlink p) (fst (main calm [] ["notes.txt"])).
Proof.
  assert (C : completed calm (fst (main calm [] ["notes.txt"]))).
  { exists [Ev_fopen "notes.txt" "r"; Ev_stat "notes.txt";
            Ev_open "notes.txt.xz" [O_CREAT; O_WRONLY]
                    (Z.lor S_IFREG mode_0644);
            Ev_fdopen "notes.txt.xz" "w"; Ev_isatty_out],
           (Ev_pixz_write true 6).
    split; [reflexivity|]. split; [reflexivity|].
    right. exists "notes.txt". reflexivity. }
  split; [exact C|].
  apply (proj2 (input_removed_iff calm [] ["notes.txt"] C)).
  split; [right; reflexivity|]. split; reflexivity.
Defined.

Lemma unlink_only_after_engine_witness :
  In (Ev_unlink "notes.txt") (fst (main calm [] ["notes.txt"]))
  /\ snd (main calm [] ["notes.txt"]) = Exit 0.
Proof.
  assert (I : In (Ev_unlink "notes.txt") (fst (main calm [] ["notes.txt"])))
    by (do 6 right; left; reflexivity).
  split; [exact I|].
  exact (proj1 (unlink_only_after_engine calm [] ["notes.txt"] "notes.txt"
                  I)).
Defined.

Lemma usage_error_before_files_witness :
  snd (main calm [mkopt "l" ""] ["a"; "b"]) = Exit 2
  /\ ((exists msg,
         fst (main calm [mkopt "l" ""] ["a"; "b"])
         = [Ev_stderr (msg ++ nl ++ nl);
            Ev_stderr (usage_text (PACKAGE_VERSION calm))])
      \/ (exists t1,
            forallb is_setup t1 = true
            /\ fst (main calm [mkopt "l" ""] ["a"; "b"])
               = t1 ++ [Ev_isatty_out;
                        Ev_stderr ("Refusing to output to a TTY"
                                   ++ nl ++ nl);
                        Ev_stderr (usage_text (PACKAGE_VERSION calm))])).
Proof.
  split; [reflexivity|].
  exact (usage_error_before_files calm [mkopt "l" ""] ["a"; "b"] eq_refl).
Defined.

Lemma missing_input_creates_nothing_witness :
  option_loop barren [] initial = ret initial
  /\ fopen_ok barren "notes.txt" "r" = false
  /\ main barren [] ["notes.txt"]
     = ([Ev_fopen "notes.txt" "r"],
        Died "can not open input file: notes.txt: No such file or directory").
Proof.
  split; [reflexivity|]. split; [reflexivity|].
  exact (missing_input_creates_nothing barren [] ["notes.txt"] initial
           (set_opath (Some "notes.txt.xz")
              (set_ipath (Some "notes.txt") initial))
           true "notes.txt" eq_refl eq_refl eq_refl eq_refl).
Defined.

Lemma output_from_stdin_uses_fopen_witness :
  option_loop calm [mkopt "o" "out.xz"] initial
  = ret (set_opath (Some "out.xz") initial)
  /\ exists rest,
       fst (main calm [mkopt "o" "out.xz"] [])
       = Ev_fopen "out.xz" "w" :: rest
       /\ forallb (fun e => negb (touches_files e)) rest = true.
Proof.
  split; [reflexivity|].
  exact (output_from_stdin_uses_fopen calm [mkopt "o" "out.xz"] []
           (set_opath (Some "out.xz") initial)
           (set_opath (Some "out.xz") initial) false "out.xz"
           eq_refl eq_refl eq_refl eq_refl).
Defined.

Lemma list_and_extract_keep_input_witness :
  option_loop calm [mkopt "l" ""] initial = ret (set_op OP_LIST initial)
  /\ ~ In (Ev_unlink "a.tpxz") (fst (main calm [mkopt "l" ""] ["a.tpxz"])).
Proof.
  split; [reflexivity|].
  exact (proj2 (list_and_extract_keep_input calm [mkopt "l" ""] ["a.tpxz"]
                  (set_op OP_LIST initial) eq_refl (or_introl eq_refl))
           "a.tpxz").
Defined.

Lemma path_flags_exclude_arguments_witness :
  option_loop calm [mkopt "i" "a"] initial
  = ret (set_ipath (Some "a") initial)
  /\ exists msg,
       (msg = "Too many arguments"%string
        \/ msg = "Multiple input files specified"%string)
       /\ main calm [mkopt "i" "a"] ["c"]
          = ([Ev_stderr (msg ++ nl ++ nl);
              Ev_stderr (usage_text (PACKAGE_VERSION calm))], Exit 2).
Proof.
  split; [reflexivity|].
  refine (proj1 (path_flags_exclude_arguments calm [mkopt "i" "a"] ["c"]
                   (set_ipath (Some "a") initial) eq_refl _ _) eq_refl).
  - intros X. discriminate X.
  - intros X. discriminate X.
Defined.

(** X22.  A failure of [stat] does not stop the run: its result is not
    tested, and the output is created all the same, with whatever the
    mode field holds. *)
Theorem stat_failure_ignored (w : world) (opts : list gopt)
    (args : list string) (s0 s : locals) (r : bool) (i o : string) :
  option_loop w opts initial = ret s0 ->
  positional w args s0 = ret (s, r) ->
  ipath s = Some i -> opath s = Some o ->
  fopen_ok w i "r" = true ->
  stat_st_mode w i = None ->
  exists rest,
    fst (main w opts args)
    = [Ev_fopen i "r"; Ev_stat i;
       Ev_open o [O_CREAT; O_WRONLY] (unset_st_mode w)] ++ rest
    /\ (open_ok w o [O_CREAT; O_WRONLY] (unset_st_mode w) = true ->
        exists rest', rest = Ev_fdopen o "w" :: rest').
Proof.
  intros H1 H2 Hi Ho Hf Hm. unfold main, main_body.
  rewrite H1, bind_ret_l, H2, bind_ret_l.
  unfold open_streams. rewrite Hi, Ho, Hf, Hm.
  destruct (dispatch w args s) as [td [[]|od]];
    destruct (open_ok w o [O_CREAT; O_WRONLY] (unset_st_mode w)),
      (fdopen_ok w o), (r && negb (keep_input s));
    cbn; eexists; (split; [reflexivity|]);
    intros X; first [discriminate X | eexists; reflexivity].
Qed.

Lemma stat_failure_ignored_witness :
  option_loop statless [] initial = ret initial
  /\ stat_st_mode statless "notes.txt" = None
  /\ exists rest,
       fst (main statless [] ["notes.txt"])
       = [Ev_fopen "notes.txt" "r"; Ev_stat "notes.txt";
          Ev_open "notes.txt.xz" [O_CREAT; O_WRONLY] 0] ++ rest
       /\ (open_ok statless "notes.txt.xz" [O_CREAT; O_WRONLY] 0 = true ->
           exists rest', rest = Ev_fdopen "notes.txt.xz" "w" :: rest').
Proof.
  split; [reflexivity|]. split; [reflexivity|].
  exact (stat_failure_ignored statless [] ["notes.txt"] initial
           (set_opath (Some "notes.txt.xz")
              (set_ipath (Some "notes.txt") initial))
           true "notes.txt" "notes.txt.xz"
           eq_refl eq_refl eq_refl eq_refl eq_refl eq_refl).
Defined.
